(** * Sapio example contracts: transaction-template factories

    The path factories of [sapio/examples/smarter_vault.py] and
    [sapio/examples/subscription.py], the [UndoSend] contract of
    [sapio/examples/undo_send.py] and the payment-list boundary
    [sapio_server/network/json/payments.py].

    The Python factories allocate a [TransactionTemplate] object and mutate
    it through [add_output], [set_sequence] and [set_locktime], and the
    vault calls the callable bound to [cold_storage].  They are embedded in
    a state-and-error monad over a world made of the store of template
    objects and of the calls made so far, so that a template is a reference
    into the store exactly as in the source, a callable may answer
    differently from one call to the next, and a raised exception is a
    [Raise] result. *)

From Stdlib Require Import ZArith Lia.
From stdpp Require Import base list strings.

Local Open Scope Z_scope.

(** ** Values bound to contract fields *)

(** Modelled from the spec: the declaration of [Amount]
    ([sapio.bitcoinlib.static_types]) is missing from the sources; the data
    model gives it exact integer arithmetic.  A value bound to a field is a
    valid amount when it is non-negative; a computed difference may not be. *)
Abbreviation Amount := Z.

Definition valid_Amount (a : Amount) : Prop := 0 <= a.

(** [Amount(int64(0))] *)
Definition int64 (z : Z) : Z := z.

Definition PubKey := string.

(** [sapio.script.clause]: the two time specifications, each carrying the
    attribute [time] that the factories read. *)
Inductive TimeSpec :=
| RelativeTimeSpec (t : Z)
| AbsoluteTimeSpec (t : Z).

Definition time (spec : TimeSpec) : Z :=
  match spec with
  | RelativeTimeSpec t => t
  | AbsoluteTimeSpec t => t
  end.

(** What [add_timeout] may be handed as [delay]: it dispatches with
    [isinstance] and has no [else] branch, so any other object is accepted
    too. *)
Inductive PyObject :=
| Obj_TimeSpec (spec : TimeSpec)
| Obj_other (repr : string).

(** ** Contract bindings *)

(** Each contract class declares its parameters in a nested class [Fields];
    a record per class, parameterised by the type of contracts so that the
    fields can hold contracts themselves.  The attribute [assigned_value] of
    a bound field is the bound value, which is what the records hold. *)

Module UndoSend.
(** [smarter_vault.py] binds its [hot_storage] contract to [to_key]. *)
Record Fields (C : Type) := {
  from_contract : C;
  to_key : C;
  amount : Amount;
  timeout : TimeSpec
}.
Arguments from_contract {C} _.
Arguments to_key {C} _.
Arguments amount {C} _.
Arguments timeout {C} _.
End UndoSend.

Module SmarterVault.
(** [cold_storage] is a Python callable, called anew by every run of a path;
    what it returns may depend on the calls made before.  It is given here
    by its result for every list of the arguments of the earlier calls (the
    oldest first) and every argument. *)
Record Fields (C : Type) := {
  cold_storage : list Amount -> Amount -> C;
  hot_storage : C;
  n_steps : Z;
  amount_step : Amount;
  timeout : TimeSpec;
  mature : TimeSpec
}.
Arguments cold_storage {C} _ _ _.
Arguments hot_storage {C} _.
Arguments n_steps {C} _.
Arguments amount_step {C} _.
Arguments timeout {C} _.
Arguments mature {C} _.
End SmarterVault.

Module CancellableSubscription.
Record Fields (C : Type) := {
  amount : Amount;
  recipient : C;
  schedule : list (TimeSpec * Amount);
  return_address : C;
  watchtower_key : PubKey;
  return_timeout : TimeSpec
}.
Arguments amount {C} _.
Arguments recipient {C} _.
Arguments schedule {C} _.
Arguments return_address {C} _.
Arguments watchtower_key {C} _.
Arguments return_timeout {C} _.
End CancellableSubscription.

Module CancelContest.
Record Fields (C : Type) := {
  amount : Amount;
  recipient : C;
  schedule : list (TimeSpec * Amount);
  return_address : C;
  watchtower_key : PubKey;
  return_timeout : TimeSpec
}.
Arguments amount {C} _.
Arguments recipient {C} _.
Arguments schedule {C} _.
Arguments return_address {C} _.
Arguments watchtower_key {C} _.
Arguments return_timeout {C} _.
End CancelContest.

(** A contract is an instance of one of the classes with its fields bound,
    or a destination supplied by the caller ([PayToSegwitAddress] and the
    like), which the factories only pass along. *)
#[warnings="-register-all"]
Inductive Contract :=
| PayToSegwitAddress (address : string)
| UndoSend (fields : UndoSend.Fields Contract)
| SmarterVault (fields : SmarterVault.Fields Contract)
| CancellableSubscription (fields : CancellableSubscription.Fields Contract)
| CancelContest (fields : CancelContest.Fields Contract).

(** ** Transaction templates and the world they live in *)

(** Modelled from the spec: the class [TransactionTemplate]
    ([sapio.contract.txtemplate]) is missing from the sources.  The data model
    gives it an ordered sequence of outputs, an optional sequence value and
    an optional locktime value. *)
Record TransactionTemplate := {
  outputs : list (Amount * Contract);
  sequence : option Z;
  lock_time : option Z
}.

Inductive Error :=
| IndexError
| DoubleLockError
| SchemaValidationError
| ValueError
| ReferenceError
| RecursionLimitError.

Inductive result (A : Type) :=
| Ok (a : A)
| Raise (e : Error).
Arguments Ok {A} a.
Arguments Raise {A} e.

(** A template object is a position in the store; allocation appends. *)
Definition ref := nat.
Abbreviation Store := (list TransactionTemplate).

(** The mutable world the factories run in: the templates allocated so far
    and the arguments of the calls made so far to the bound callables. *)
Record World := mkWorld {
  templates : Store;
  calls : list Amount
}.

Definition M (A : Type) : Type := World -> result (A * World).

Definition ret {A} (a : A) : M A := fun w => Ok (a, w).

Definition bind {A B} (m : M A) (k : A -> M B) : M B :=
  fun w =>
    match m w with
    | Ok (a, w') => k a w'
    | Raise e => Raise e
    end.

Definition raise {A} (e : Error) : M A := fun _ => Raise e.

Declare Scope py_scope.
Delimit Scope py_scope with py.
Notation "x <- m ;; k" := (bind m (fun x => k))
  (at level 100, m at next level, right associativity) : py_scope.
Notation "m ;; k" := (bind m (fun _ => k))
  (at level 100, right associativity) : py_scope.
Local Open Scope py_scope.

(** [TransactionTemplate()] *)
Definition new_TransactionTemplate : M ref :=
  fun w =>
    Ok (length (templates w),
        mkWorld
          (templates w
           ++ [ {| outputs := []; sequence := None; lock_time := None |} ])
          (calls w)).

(** In-place update of the object behind [tx]. *)
Definition update (tx : ref)
    (f : TransactionTemplate -> result TransactionTemplate) : M unit :=
  fun w =>
    match templates w !! tx with
    | None => Raise ReferenceError
    | Some t =>
        match f t with
        | Ok t' => Ok (tt, mkWorld (<[tx := t']> (templates w)) (calls w))
        | Raise e => Raise e
        end
    end.

(** Calling a bound callable: it answers from the calls made before, and
    the call is recorded. *)
Definition call (callable : list Amount -> Amount -> Contract)
    (argument : Amount) : M Contract :=
  fun w =>
    Ok (callable (calls w) argument,
        mkWorld (templates w) (calls w ++ [argument])).

(** Modelled from the spec: [add_output(amount, target)] appends in order. *)
Definition add_output (tx : ref) (amount : Amount) (target : Contract) : M unit :=
  update tx (fun t =>
    Ok {| outputs := outputs t ++ [(amount, target)];
          sequence := sequence t;
          lock_time := lock_time t |}).

(** Modelled from the spec: [set_sequence(value)] sets the sequence value at
    most once; a second call is a [DoubleLockError]. *)
Definition set_sequence (tx : ref) (value : Z) : M unit :=
  update tx (fun t =>
    match sequence t with
    | Some _ => Raise DoubleLockError
    | None =>
        Ok {| outputs := outputs t;
              sequence := Some value;
              lock_time := lock_time t |}
    end).

(** Modelled from the spec: [set_locktime(value)], likewise for the
    locktime value. *)
Definition set_locktime (tx : ref) (value : Z) : M unit :=
  update tx (fun t =>
    match lock_time t with
    | Some _ => Raise DoubleLockError
    | None =>
        Ok {| outputs := outputs t;
              sequence := sequence t;
              lock_time := Some value |}
    end).

(** Reading a finished template back from the world a factory leaves. *)
Definition template_of (m : M ref) (w : World) : result TransactionTemplate :=
  match m w with
  | Ok (tx, w') =>
      match templates w' !! tx with
      | Some t => Ok t
      | None => Raise ReferenceError
      end
  | Raise e => Raise e
  end.

(** ** [sapio/examples/undo_send.py] *)

(** [UndoSend.undo] *)
Definition undo (self : UndoSend.Fields Contract) : M ref :=
  tx <- new_TransactionTemplate ;;
  add_output tx (UndoSend.amount self) (UndoSend.from_contract self) ;;
  ret tx.

Module UndoSend2.
(** No factory pays into an [UndoSend2], so its fields are a plain record
    over the contracts. *)
Record Fields := {
  from_contract : Contract;
  to_contract : Contract;
  amount : Amount;
  timeout : TimeSpec
}.

(** [UndoSend2.complete] *)
Definition complete (self : Fields) : M ref :=
  tx <- new_TransactionTemplate ;;
  set_sequence tx (time (timeout self)) ;;
  add_output tx (amount self) (to_contract self) ;;
  ret tx.

(** [UndoSend2.undo] *)
Definition undo (self : Fields) : M ref :=
  tx <- new_TransactionTemplate ;;
  add_output tx (amount self) (from_contract self) ;;
  ret tx.
End UndoSend2.

(** ** [sapio/examples/smarter_vault.py] *)

(** [SmarterVault.step] *)
Definition step (self : SmarterVault.Fields Contract) : M ref :=
  tx <- new_TransactionTemplate ;;
  set_sequence tx (time (SmarterVault.timeout self)) ;;
  from_contract <-
    call (SmarterVault.cold_storage self) (SmarterVault.amount_step self) ;;
  add_output tx (SmarterVault.amount_step self)
    (UndoSend
       {| UndoSend.from_contract := from_contract;
          UndoSend.to_key := SmarterVault.hot_storage self;
          UndoSend.timeout := SmarterVault.mature self;
          UndoSend.amount := SmarterVault.amount_step self |}) ;;
  (if SmarterVault.n_steps self >? 1 then
     let steps_left := SmarterVault.n_steps self - 1 in
     let sub_amount :=
       (SmarterVault.n_steps self - 1) * SmarterVault.amount_step self in
     let sub_vault :=
       SmarterVault
         {| SmarterVault.cold_storage := SmarterVault.cold_storage self;
            SmarterVault.hot_storage := SmarterVault.hot_storage self;
            SmarterVault.n_steps := SmarterVault.n_steps self - 1;
            SmarterVault.timeout := SmarterVault.timeout self;
            SmarterVault.mature := SmarterVault.mature self;
            SmarterVault.amount_step := SmarterVault.amount_step self |} in
     add_output tx sub_amount sub_vault
   else ret tt) ;;
  ret tx.

(** [SmarterVault.to_cold] *)
Definition to_cold (self : SmarterVault.Fields Contract) : M ref :=
  tx <- new_TransactionTemplate ;;
  let value := SmarterVault.n_steps self * SmarterVault.amount_step self in
  target <- call (SmarterVault.cold_storage self) value ;;
  add_output tx value target ;;
  ret tx.

(** Dereferencing a template object. *)
Definition read (tx : ref) : M TransactionTemplate :=
  fun w =>
    match templates w !! tx with
    | Some t => Ok (t, w)
    | None => Raise ReferenceError
    end.

(** The sub-vault a template pays into, if any: the first output whose
    target is a [SmarterVault]. *)
Fixpoint first_vault (outs : list (Amount * Contract))
    : option (SmarterVault.Fields Contract) :=
  match outs with
  | [] => None
  | (_, SmarterVault sub) :: _ => Some sub
  | _ :: outs' => first_vault outs'
  end.

Definition nested_vault (t : TransactionTemplate)
    : option (SmarterVault.Fields Contract) :=
  first_vault (outputs t).

(** Resolving a vault level by level: build the [step] template, and when it
    pays into a nested sub-vault, resolve that one in turn.  [levels] bounds
    the nesting; running out of levels is a [RecursionLimitError].  The
    result lists the [step] templates, outermost first. *)
Fixpoint resolve_steps (levels : nat) (self : SmarterVault.Fields Contract)
    : M (list ref) :=
  match levels with
  | O => raise RecursionLimitError
  | S levels' =>
      tx <- step self ;;
      t <- read tx ;;
      match nested_vault t with
      | None => ret [tx]
      | Some sub_vault =>
          inner <- resolve_steps levels' sub_vault ;;
          ret (tx :: inner)
      end
  end.

(** ** [sapio/examples/subscription.py] *)

(** Python's [len], and the truth value of an integer in a condition. *)
Definition len {A} (l : list A) : Z := Z.of_nat (length l).

Definition truthy (z : Z) : bool := negb (z =? 0).

(** [add_timeout]: neither branch is taken for an object of another class. *)
Definition add_timeout (tx : ref) (delay : PyObject) : M unit :=
  match delay with
  | Obj_TimeSpec (RelativeTimeSpec t) => set_sequence tx t
  | Obj_TimeSpec (AbsoluteTimeSpec t) => set_locktime tx t
  | Obj_other _ => ret tt
  end.

(** [CancellableSubscription.cancel] *)
Definition cancel (self : CancellableSubscription.Fields Contract) : M ref :=
  tx <- new_TransactionTemplate ;;
  let amount := CancellableSubscription.amount self in
  let return_address := CancellableSubscription.return_address self in
  let cc :=
    CancelContest
      {| CancelContest.amount := amount;
         CancelContest.recipient := CancellableSubscription.recipient self;
         CancelContest.schedule := CancellableSubscription.schedule self;
         CancelContest.return_address :=
           CancellableSubscription.return_address self;
         CancelContest.watchtower_key :=
           CancellableSubscription.watchtower_key self;
         CancelContest.return_timeout :=
           CancellableSubscription.return_timeout self |} in
  add_output tx amount cc ;;
  ret tx.

(** [CancellableSubscription.claim]; [schedule[0]] raises [IndexError] on an
    empty schedule, after the template object was allocated. *)
Definition claim (self : CancellableSubscription.Fields Contract) : M ref :=
  tx <- new_TransactionTemplate ;;
  match CancellableSubscription.schedule self !! 0%nat with
  | None => raise IndexError
  | Some (delay, amount) =>
      add_timeout tx (Obj_TimeSpec delay) ;;
      let total_amount := CancellableSubscription.amount self in
      add_output tx amount (CancellableSubscription.recipient self) ;;
      (if len (CancellableSubscription.schedule self) >? 1 then
         let new_amount := total_amount - amount in
         add_output tx new_amount
           (CancellableSubscription
              {| CancellableSubscription.amount := new_amount;
                 CancellableSubscription.recipient :=
                   CancellableSubscription.recipient self;
                 CancellableSubscription.schedule :=
                   drop 1 (CancellableSubscription.schedule self);
                 CancellableSubscription.watchtower_key :=
                   CancellableSubscription.watchtower_key self;
                 CancellableSubscription.return_timeout :=
                   CancellableSubscription.return_timeout self;
                 CancellableSubscription.return_address :=
                   CancellableSubscription.return_address self |})
       else ret tt) ;;
      ret tx
  end.

(** The body of the [for] loop of [CancelContest.counterclaim], over the
    entries still to visit; [amount_earned] is the loop-carried local, and
    the references returned are the templates yielded, in order. *)
Fixpoint counterclaim_loop (self : CancelContest.Fields Contract)
    (amount_earned : Amount) (entries : list (TimeSpec * Amount))
    : M (list ref) :=
  match entries with
  | [] => ret []
  | (timeout, amount) :: entries' =>
      let amount_earned := amount_earned + amount in
      let amount_refundable := CancelContest.amount self - amount_earned in
      tx <- new_TransactionTemplate ;;
      add_timeout tx (Obj_TimeSpec timeout) ;;
      add_output tx amount_earned (CancelContest.recipient self) ;;
      (if truthy amount_refundable then
         add_output tx amount_refundable (CancelContest.return_address self)
       else ret tt) ;;
      yielded <- counterclaim_loop self amount_earned entries' ;;
      ret (tx :: yielded)
  end.

(** [CancelContest.counterclaim], run to exhaustion. *)
Definition counterclaim (self : CancelContest.Fields Contract) : M (list ref) :=
  let amount_earned := int64 0 in
  counterclaim_loop self amount_earned (CancelContest.schedule self).

(** [CancelContest.finish_cancel] *)
Definition finish_cancel (self : CancelContest.Fields Contract) : M ref :=
  tx <- new_TransactionTemplate ;;
  set_sequence tx (time (CancelContest.return_timeout self)) ;;
  let amount := CancelContest.amount self in
  let return_address := CancelContest.return_address self in
  add_output tx amount return_address ;;
  ret tx.

(** The subscription a [claim] template continues into, if any: [claim]
    appends it as the second output. *)
Definition continuation (t : TransactionTemplate)
    : option (CancellableSubscription.Fields Contract) :=
  match outputs t !! 1%nat with
  | Some (_, CancellableSubscription sub) => Some sub
  | _ => None
  end.

(** Resolving a subscription claim by claim: build the [claim] template, and
    when it continues into a further subscription, resolve that one in turn,
    at most [levels] deep.  The result lists the [claim] templates, first
    claim first. *)
Fixpoint resolve_claims (levels : nat)
    (self : CancellableSubscription.Fields Contract) : M (list ref) :=
  match levels with
  | O => raise RecursionLimitError
  | S levels' =>
      tx <- claim self ;;
      t <- read tx ;;
      match continuation t with
      | None => ret [tx]
      | Some sub =>
          later <- resolve_claims levels' sub ;;
          ret (tx :: later)
      end
  end.

(** Reading back every template a generator yielded. *)
Fixpoint read_all (txs : list ref) (st : Store) : result (list TransactionTemplate) :=
  match txs with
  | [] => Ok []
  | tx :: txs' =>
      match st !! tx, read_all txs' st with
      | Some t, Ok ts => Ok (t :: ts)
      | None, _ => Raise ReferenceError
      | _, Raise e => Raise e
      end
  end.

Definition templates_of (m : M (list ref)) (w : World)
    : result (list TransactionTemplate) :=
  match m w with
  | Ok (txs, w') => read_all txs (templates w')
  | Raise e => Raise e
  end.

(** A list comprehension whose element expression may raise. *)
Fixpoint comprehension {A B} (f : A -> result B) (l : list A) : result (list B) :=
  match l with
  | [] => Ok []
  | x :: l' =>
      match f x with
      | Raise e => Raise e
      | Ok y =>
          match comprehension f l' with
          | Raise e => Raise e
          | Ok ys => Ok (y :: ys)
          end
      end
  end.

(** [range(n)] *)
Definition range (n : Z) : list Z := seqZ 0 n.

Module auto_pay.
(** The keyword arguments of [auto_pay]: [auto_fields], which hides
    [schedule] and [amount]. *)
Record auto_fields := {
  period : Z;
  per_time : Amount;
  times : Z;
  recipient : Contract;
  return_address : Contract;
  watchtower_key : PubKey;
  return_timeout : TimeSpec
}.
End auto_pay.

Section AutoPay.
(** [AbsoluteTimeSpec.at_height] is defined in [sapio.script.clause],
    which is missing from the sources; it is a parameter here, and it may
    raise. *)
Variable at_height : Z -> result TimeSpec.

Definition auto_pay (kwargs : auto_pay.auto_fields)
    : result (CancellableSubscription.Fields Contract) :=
  let period := auto_pay.period kwargs in
  let times := auto_pay.times kwargs in
  let per_time := auto_pay.per_time kwargs in
  match
    comprehension
      (fun t =>
         match at_height ((t + 1) * period) with
         | Ok h => Ok (h, per_time)
         | Raise e => Raise e
         end)
      (range times)
  with
  | Raise e => Raise e
  | Ok schedule =>
      let amount := per_time * times in
      Ok {| CancellableSubscription.schedule := schedule;
            CancellableSubscription.amount := amount;
            CancellableSubscription.recipient := auto_pay.recipient kwargs;
            CancellableSubscription.return_address :=
              auto_pay.return_address kwargs;
            CancellableSubscription.watchtower_key :=
              auto_pay.watchtower_key kwargs;
            CancellableSubscription.return_timeout :=
              auto_pay.return_timeout kwargs |}
  end.
End AutoPay.

(** ** [sapio_server/network/json/payments.py] *)

#[warnings="-register-all"]
Inductive JSON :=
| JNull
| JBool (b : bool)
| JNumber (n : Z)
| JString (s : string)
| JArray (items : list JSON)
| JObject (members : list (string * JSON)).

Module payments.
Section Payments.
(** The module [sapio_server.network.json.address], the server [Context]
    and the compiler's [BindableContract] are missing from the sources:
    the address schema enters as its validity predicate, and
    [address.convert] as a function that may raise. *)
Variables Context BindableContract : Type.
Variable address_schema : JSON -> bool.
Variable address_convert : JSON -> Context -> result (Amount * BindableContract).

(** [Draft7Validator(schema).validate] for the schema
    [{"type": "array", "items": address.schema}]. *)
Definition validate (arg : JSON) : result unit :=
  match arg with
  | JArray items =>
      if forallb address_schema items then Ok tt
      else Raise SchemaValidationError
  | _ => Raise SchemaValidationError
  end.

(** [convert]; [map] over an argument that passed validation iterates over
    the items of the array. *)
Definition convert (arg : JSON) (ctx : Context)
    : result (list (Amount * BindableContract)) :=
  match validate arg with
  | Raise e => Raise e
  | Ok _ =>
      match arg with
      | JArray items => comprehension (fun p => address_convert p ctx) items
      | _ => Raise SchemaValidationError (* not reached: [validate] raised *)
      end
  end.
End Payments.
End payments.

(** ** Observations on templates *)

(** Sum of the amounts of a template's outputs. *)
Definition output_total (t : TransactionTemplate) : Z :=
  foldr (fun o acc => o.1 + acc) 0 (outputs t).

(** The amount a template pays to the segwit address [addr]. *)
Definition pays_to (addr : string) (o : Amount * Contract) : bool :=
  match o.2 with
  | PayToSegwitAddress a => String.eqb a addr
  | _ => false
  end.

Definition received (addr : string) (t : TransactionTemplate) : Z :=
  foldr (fun o acc => if pays_to addr o then o.1 + acc else acc) 0 (outputs t).

(** ** Closed forms of the templates the factories build *)

(** The lock fields a fresh template gets from [add_timeout]. *)
Definition sequence_of (delay : TimeSpec) : option Z :=
  match delay with
  | RelativeTimeSpec t => Some t
  | AbsoluteTimeSpec _ => None
  end.

Definition locktime_of (delay : TimeSpec) : option Z :=
  match delay with
  | RelativeTimeSpec _ => None
  | AbsoluteTimeSpec t => Some t
  end.

(** The template built by one iteration of the loop of [counterclaim],
    given the value [amount_earned] has after its update. *)
Definition yielded (self : CancelContest.Fields Contract)
    (timeout : TimeSpec) (amount_earned : Amount) : TransactionTemplate :=
  {| outputs :=
       (amount_earned, CancelContest.recipient self)
       :: (if truthy (CancelContest.amount self - amount_earned) then
             [ (CancelContest.amount self - amount_earned,
                CancelContest.return_address self) ]
           else []);
     sequence := sequence_of timeout;
     lock_time := locktime_of timeout |}.

Fixpoint yielded_all (self : CancelContest.Fields Contract)
    (amount_earned : Amount) (entries : list (TimeSpec * Amount))
    : list TransactionTemplate :=
  match entries with
  | [] => []
  | (timeout, amount) :: entries' =>
      yielded self timeout (amount_earned + amount)
      :: yielded_all self (amount_earned + amount) entries'
  end.

Section VaultLevels.
Variable cold_storage : list Amount -> Amount -> Contract.
Variable hot_storage : Contract.
Variable amount_step : Amount.
Variables timeout mature : TimeSpec.

(** The vault with [n] steps left, the other fields fixed. *)
Definition vault (n : Z) : SmarterVault.Fields Contract :=
  {| SmarterVault.cold_storage := cold_storage;
     SmarterVault.hot_storage := hot_storage;
     SmarterVault.n_steps := n;
     SmarterVault.amount_step := amount_step;
     SmarterVault.timeout := timeout;
     SmarterVault.mature := mature |}.

(** The first output of the [step] template of such a vault, built after
    the calls [earlier]. *)
Definition undo_send_output (earlier : list Amount) : Amount * Contract :=
  (amount_step,
   UndoSend {| UndoSend.from_contract := cold_storage earlier amount_step;
               UndoSend.to_key := hot_storage;
               UndoSend.timeout := mature;
               UndoSend.amount := amount_step |}).

Definition step_template (earlier : list Amount) (n : Z) : TransactionTemplate :=
  {| outputs :=
       undo_send_output earlier
       :: (if n >? 1 then [ ((n - 1) * amount_step, SmarterVault (vault (n - 1))) ]
           else []);
     sequence := Some (time timeout);
     lock_time := None |}.

(** The templates of the levels of a vault with [k] steps, outermost first;
    each level calls [cold_storage] once, with [amount_step]. *)
Fixpoint step_templates (earlier : list Amount) (k : nat)
    : list TransactionTemplate :=
  match k with
  | O => []
  | S k' =>
      step_template earlier (Z.of_nat k)
      :: step_templates (earlier ++ [amount_step]) k'
  end.

End VaultLevels.

(** ** Quantities the statements speak of *)

(** Sum of the amounts of schedule entries, and the amount claimed by the
    template yielded for entry [i] (counted from 0): the sum over the
    entries up to and including entry [i]. *)
Definition schedule_sum (entries : list (TimeSpec * Amount)) : Z :=
  foldr (fun e acc => e.2 + acc) 0 entries.

Definition claimed (entries : list (TimeSpec * Amount)) (i : nat) : Z :=
  schedule_sum (take (S i) entries).

(** No output of the template has a negative amount. *)
Definition nonnegative_outputs (t : TransactionTemplate) : Prop :=
  Forall (fun o : Amount * Contract => 0 <= o.1) (outputs t).

(** A factory is restartable when the template it builds does not depend on
    the world it starts from (the templates and the calls there were
    before), nor on an earlier invocation of itself in the same world, and
    when a later invocation leaves the template of the earlier one as it
    was. *)
Definition restartable (m : M ref) : Prop :=
  forall w1 w2,
    template_of m w1 = template_of m w2
    /\ template_of (m ;; m) w1 = template_of m w1
    /\ template_of (earlier <- m ;; m ;; ret earlier) w1 = template_of m w1.

Definition restartable_generator (m : M (list ref)) : Prop :=
  forall w1 w2,
    templates_of m w1 = templates_of m w2
    /\ templates_of (m ;; m) w1 = templates_of m w1
    /\ templates_of (earlier <- m ;; m ;; ret earlier) w1 = templates_of m w1.

(** A callable that answers a call with [argument] with the same contract
    whatever calls were made before. *)
Definition answers_alike (callable : list Amount -> Amount -> Contract)
    (argument : Amount) : Prop :=
  forall earlier earlier',
    callable earlier argument = callable earlier' argument.

(** ** Concrete bindings *)

(** The world before anything was allocated or called. *)
Definition empty_world : World := mkWorld [] [].

(** A callable that answers with one address whatever was called before. *)
Definition one_cold : list Amount -> Amount -> Contract :=
  fun _ _ => PayToSegwitAddress "cold".

(** A callable that answers with another address once it has been called,
    as a closure over a counter does. *)
Definition numbered_cold : list Amount -> Amount -> Contract :=
  fun earlier _ =>
    match earlier with
    | [] => PayToSegwitAddress "cold0"
    | _ :: _ => PayToSegwitAddress "cold1"
    end.

(** A vault of three steps of 100, with each of the two callables. *)
Definition three_steps : SmarterVault.Fields Contract :=
  vault one_cold (PayToSegwitAddress "hot") 100
    (RelativeTimeSpec 6) (RelativeTimeSpec 12) 3.

Definition numbered_steps : SmarterVault.Fields Contract :=
  vault numbered_cold (PayToSegwitAddress "hot") 100
    (RelativeTimeSpec 6) (RelativeTimeSpec 12) 3.

(** A subscription whose only schedule entry pays less than the bound
    amount. *)
Definition half_scheduled : CancellableSubscription.Fields Contract :=
  {| CancellableSubscription.amount := 100;
     CancellableSubscription.recipient := PayToSegwitAddress "recipient";
     CancellableSubscription.schedule := [(AbsoluteTimeSpec 10, 50)];
     CancellableSubscription.return_address := PayToSegwitAddress "payer";
     CancellableSubscription.watchtower_key := "watchtower";
     CancellableSubscription.return_timeout := RelativeTimeSpec 6 |}.

(** The contest of the scenario, with concrete destinations. *)
Definition two_payments : CancelContest.Fields Contract :=
  {| CancelContest.amount := 100;
     CancelContest.recipient := PayToSegwitAddress "recipient";
     CancelContest.schedule :=
       [(AbsoluteTimeSpec 10, 50); (AbsoluteTimeSpec 20, 50)];
     CancelContest.return_address := PayToSegwitAddress "payer";
     CancelContest.watchtower_key := "watchtower";
     CancelContest.return_timeout := RelativeTimeSpec 6 |}.

(** A cancellation contest whose schedule promises more than is bound. *)
Definition overpromised : CancelContest.Fields Contract :=
  {| CancelContest.amount := 60;
     CancelContest.recipient := PayToSegwitAddress "recipient";
     CancelContest.schedule :=
       [(AbsoluteTimeSpec 10, 50); (AbsoluteTimeSpec 20, 50)];
     CancelContest.return_address := PayToSegwitAddress "payer";
     CancelContest.watchtower_key := "watchtower";
     CancelContest.return_timeout := RelativeTimeSpec 6 |}.

(** Three payments of 10, one every 144 blocks. *)
Definition quarterly : auto_pay.auto_fields :=
  {| auto_pay.period := 144;
     auto_pay.per_time := 10;
     auto_pay.times := 3;
     auto_pay.recipient := PayToSegwitAddress "recipient";
     auto_pay.return_address := PayToSegwitAddress "payer";
     auto_pay.watchtower_key := "watchtower";
     auto_pay.return_timeout := RelativeTimeSpec 6 |}.

(** ** Further observations and closed forms *)

(** What the templates [ts] pay to the segwit address [addr] together. *)
Definition total_received (addr : string) (ts : list TransactionTemplate) : Z :=
  foldr (fun t acc => received addr t + acc) 0 ts.

(** The amount a template sends through [UndoSend] contracts. *)
Definition undoable (t : TransactionTemplate) : Z :=
  foldr (fun o acc => match o.2 with UndoSend _ => o.1 + acc | _ => acc end)
    0 (outputs t).

Definition total_undoable (ts : list TransactionTemplate) : Z :=
  foldr (fun t acc => undoable t + acc) 0 ts.

(** A subscription with another amount and schedule, the other fields kept:
    what [claim] binds its continuation to. *)
Definition rebound (self : CancellableSubscription.Fields Contract)
    (amount : Amount) (schedule : list (TimeSpec * Amount))
    : CancellableSubscription.Fields Contract :=
  {| CancellableSubscription.amount := amount;
     CancellableSubscription.recipient := CancellableSubscription.recipient self;
     CancellableSubscription.schedule := schedule;
     CancellableSubscription.watchtower_key :=
       CancellableSubscription.watchtower_key self;
     CancellableSubscription.return_timeout :=
       CancellableSubscription.return_timeout self;
     CancellableSubscription.return_address :=
       CancellableSubscription.return_address self |}.

(** The template [claim] builds for the entry [(delay, amount)] followed by
    the entries [rest], out of the bound amount [total]. *)
Definition claim_template (self : CancellableSubscription.Fields Contract)
    (total : Amount) (delay : TimeSpec) (amount : Amount)
    (rest : list (TimeSpec * Amount)) : TransactionTemplate :=
  {| outputs :=
       (amount, CancellableSubscription.recipient self)
       :: match rest with
          | [] => []
          | _ :: _ =>
              [ (total - amount,
                 CancellableSubscription (rebound self (total - amount) rest)) ]
          end;
     sequence := sequence_of delay;
     lock_time := locktime_of delay |}.

(** The templates of the successive claims of a subscription. *)
Fixpoint claim_templates (self : CancellableSubscription.Fields Contract)
    (total : Amount) (entries : list (TimeSpec * Amount))
    : list TransactionTemplate :=
  match entries with
  | [] => []
  | (delay, amount) :: rest =>
      claim_template self total delay amount rest
      :: claim_templates self (total - amount) rest
  end.

(** The contest [cancel] pays into. *)
Definition contest_of (self : CancellableSubscription.Fields Contract)
    : CancelContest.Fields Contract :=
  {| CancelContest.amount := CancellableSubscription.amount self;
     CancelContest.recipient := CancellableSubscription.recipient self;
     CancelContest.schedule := CancellableSubscription.schedule self;
     CancelContest.return_address := CancellableSubscription.return_address self;
     CancelContest.watchtower_key := CancellableSubscription.watchtower_key self;
     CancelContest.return_timeout := CancellableSubscription.return_timeout self |}.

(** A factory that returns leaves every template already in the store as it
    was and allocates exactly one, which it returns. *)
Definition allocates_one (m : M ref) : Prop :=
  forall w tx w',
    m w = Ok (tx, w') ->
    tx = length (templates w)
    /\ length (templates w') = S (length (templates w))
    /\ forall r t, templates w !! r = Some t -> templates w' !! r = Some t.

(** The subscription of the scenario, with concrete destinations. *)
Definition two_claims : CancellableSubscription.Fields Contract :=
  {| CancellableSubscription.amount := 100;
     CancellableSubscription.recipient := PayToSegwitAddress "recipient";
     CancellableSubscription.schedule :=
       [(AbsoluteTimeSpec 10, 50); (AbsoluteTimeSpec 20, 50)];
     CancellableSubscription.return_address := PayToSegwitAddress "payer";
     CancellableSubscription.watchtower_key := "watchtower";
     CancellableSubscription.return_timeout := RelativeTimeSpec 6 |}.

(** A call of [auto_pay] asking for no payment. *)
Definition no_payments : auto_pay.auto_fields :=
  {| auto_pay.period := 144;
     auto_pay.per_time := 10;
     auto_pay.times := 0;
     auto_pay.recipient := PayToSegwitAddress "recipient";
     auto_pay.return_address := PayToSegwitAddress "payer";
     auto_pay.watchtower_key := "watchtower";
     auto_pay.return_timeout := RelativeTimeSpec 6 |}.

(** An address schema accepting objects, and a conversion reading the
    address and the amount of an object. *)
Definition is_object (p : JSON) : bool :=
  match p with JObject _ => true | _ => false end.

Definition read_payment (p : JSON) (_ : unit) : result (Amount * string) :=
  match p with
  | JObject [(_, JString a); (_, JNumber n)] => Ok (n, a)
  | _ => Raise ValueError
  end.

(** ** The store primitives on the object allocated last *)

Section Primitives.
Implicit Types (w : World) (st : Store) (h : list Amount) (t : TransactionTemplate).

Lemma bind_Ok {A B} (m : M A) (k : A -> M B) w a w' :
  m w = Ok (a, w') -> bind m k w = k a w'.
Proof. intros Hm. unfold bind. now rewrite Hm. Qed.

Lemma bind_Raise {A B} (m : M A) (k : A -> M B) w e :
  m w = Raise e -> bind m k w = Raise e.
Proof. intros Hm. unfold bind. now rewrite Hm. Qed.

Lemma lookup_last st t : (st ++ [t]) !! length st = Some t.
Proof. induction st as [|x st IH]; [reflexivity | exact IH]. Qed.

Lemma insert_last st t t' : <[length st := t']> (st ++ [t]) = st ++ [t'].
Proof.
  induction st as [|x st IH]; [reflexivity |].
  cbn [length app]. cbn. f_equal. exact IH.
Qed.

Lemma new_TransactionTemplate_run st h :
  new_TransactionTemplate (mkWorld st h)
  = Ok (length st,
        mkWorld (st ++ [ {| outputs := []; sequence := None; lock_time := None |} ]) h).
Proof. reflexivity. Qed.

Lemma call_run (callable : list Amount -> Amount -> Contract) argument st h :
  call callable argument (mkWorld st h)
  = Ok (callable h argument, mkWorld st (h ++ [argument])).
Proof. reflexivity. Qed.

Lemma read_last st h t :
  read (length st) (mkWorld (st ++ [t]) h) = Ok (t, mkWorld (st ++ [t]) h).
Proof. unfold read. cbn [templates]. now rewrite lookup_last. Qed.

Lemma update_last st h t f t' :
  f t = Ok t' ->
  update (length st) f (mkWorld (st ++ [t]) h) = Ok (tt, mkWorld (st ++ [t']) h).
Proof.
  intros Hf. unfold update. cbn [templates calls].
  rewrite lookup_last, Hf, insert_last. reflexivity.
Qed.

Lemma update_last_Raise st h t f e :
  f t = Raise e -> update (length st) f (mkWorld (st ++ [t]) h) = Raise e.
Proof. intros Hf. unfold update. cbn [templates]. now rewrite lookup_last, Hf. Qed.

Lemma add_output_last st h t amount target :
  add_output (length st) amount target (mkWorld (st ++ [t]) h)
  = Ok (tt,
        mkWorld (st ++ [ {| outputs := outputs t ++ [(amount, target)];
                            sequence := sequence t;
                            lock_time := lock_time t |} ]) h).
Proof. unfold add_output. now apply update_last. Qed.

Lemma set_sequence_last st h t value :
  sequence t = None ->
  set_sequence (length st) value (mkWorld (st ++ [t]) h)
  = Ok (tt,
        mkWorld (st ++ [ {| outputs := outputs t;
                            sequence := Some value;
                            lock_time := lock_time t |} ]) h).
Proof. intros Hs. unfold set_sequence. apply update_last. now rewrite Hs. Qed.

Lemma set_locktime_last st h t value :
  lock_time t = None ->
  set_locktime (length st) value (mkWorld (st ++ [t]) h)
  = Ok (tt,
        mkWorld (st ++ [ {| outputs := outputs t;
                            sequence := sequence t;
                            lock_time := Some value |} ]) h).
Proof. intros Hs. unfold set_locktime. apply update_last. now rewrite Hs. Qed.

Lemma len_one {A} (x : A) : (len [x] >? 1) = false.
Proof. reflexivity. Qed.

Lemma len_more {A} (x y : A) (l : list A) : (len (x :: y :: l) >? 1) = true.
Proof.
  rewrite Z.gtb_ltb. apply Z.ltb_lt. unfold len. cbn [length]. lia.
Qed.

Lemma template_of_last (m : M ref) w t h :
  m w = Ok (length (templates w), mkWorld (templates w ++ [t]) h) ->
  template_of m w = Ok t.
Proof.
  intros Hm. unfold template_of. rewrite Hm. cbn [templates].
  now rewrite lookup_last.
Qed.
End Primitives.

(** ** What each factory leaves in the world *)

Ltac run :=
  repeat first
    [ erewrite bind_Ok by (apply new_TransactionTemplate_run)
    | erewrite bind_Ok by (apply set_sequence_last; reflexivity)
    | erewrite bind_Ok by (apply set_locktime_last; reflexivity)
    | erewrite bind_Ok by (apply add_output_last)
    | erewrite bind_Ok by (apply call_run)
    | erewrite bind_Ok by (unfold ret; reflexivity) ];
  cbn [outputs sequence lock_time app].

(** A world taken apart into its store and its calls. *)
Ltac open_world w :=
  let st := fresh "st" in
  let h := fresh "h" in
  destruct w as [st h]; cbn [templates calls].

Section Runs.
Implicit Types (w : World) (st : Store) (h : list Amount).

Lemma add_timeout_fresh st h outs delay :
  add_timeout (length st) (Obj_TimeSpec delay)
    (mkWorld (st ++ [ {| outputs := outs; sequence := None; lock_time := None |} ]) h)
  = Ok (tt,
        mkWorld (st ++ [ {| outputs := outs;
                            sequence := sequence_of delay;
                            lock_time := locktime_of delay |} ]) h).
Proof.
  destruct delay as [t|t]; cbn [add_timeout sequence_of locktime_of].
  - now rewrite set_sequence_last.
  - now rewrite set_locktime_last.
Qed.

Lemma step_run (self : SmarterVault.Fields Contract) w :
  step self w
  = Ok (length (templates w),
        mkWorld
          (templates w
           ++ [ {| outputs :=
                     (SmarterVault.amount_step self,
                      UndoSend
                        {| UndoSend.from_contract :=
                             SmarterVault.cold_storage self (calls w)
                               (SmarterVault.amount_step self);
                           UndoSend.to_key := SmarterVault.hot_storage self;
                           UndoSend.timeout := SmarterVault.mature self;
                           UndoSend.amount := SmarterVault.amount_step self |})
                     :: (if SmarterVault.n_steps self >? 1 then
                           [ ((SmarterVault.n_steps self - 1)
                              * SmarterVault.amount_step self,
                              SmarterVault
                                {| SmarterVault.cold_storage :=
                                     SmarterVault.cold_storage self;
                                   SmarterVault.hot_storage :=
                                     SmarterVault.hot_storage self;
                                   SmarterVault.n_steps :=
                                     SmarterVault.n_steps self - 1;
                                   SmarterVault.timeout :=
                                     SmarterVault.timeout self;
                                   SmarterVault.mature :=
                                     SmarterVault.mature self;
                                   SmarterVault.amount_step :=
                                     SmarterVault.amount_step self |}) ]
                         else []);
                   sequence := Some (time (SmarterVault.timeout self));
                   lock_time := None |} ])
          (calls w ++ [SmarterVault.amount_step self])).
Proof.
  open_world w. unfold step. run.
  destruct (SmarterVault.n_steps self >? 1); run; reflexivity.
Qed.

Lemma undo_run (self : UndoSend.Fields Contract) w :
  undo self w
  = Ok (length (templates w),
        mkWorld
          (templates w
           ++ [ {| outputs := [ (UndoSend.amount self, UndoSend.from_contract self) ];
                   sequence := None;
                   lock_time := None |} ])
          (calls w)).
Proof. open_world w. unfold undo. run. reflexivity. Qed.

Lemma undo_send2_complete_run (self : UndoSend2.Fields) w :
  UndoSend2.complete self w
  = Ok (length (templates w),
        mkWorld
          (templates w
           ++ [ {| outputs :=
                     [ (UndoSend2.amount self, UndoSend2.to_contract self) ];
                   sequence := Some (time (UndoSend2.timeout self));
                   lock_time := None |} ])
          (calls w)).
Proof. open_world w. unfold UndoSend2.complete. run. reflexivity. Qed.

Lemma undo_send2_undo_run (self : UndoSend2.Fields) w :
  UndoSend2.undo self w
  = Ok (length (templates w),
        mkWorld
          (templates w
           ++ [ {| outputs :=
                     [ (UndoSend2.amount self, UndoSend2.from_contract self) ];
                   sequence := None;
                   lock_time := None |} ])
          (calls w)).
Proof. open_world w. unfold UndoSend2.undo. run. reflexivity. Qed.

Lemma to_cold_run (self : SmarterVault.Fields Contract) w :
  to_cold self w
  = Ok (length (templates w),
        mkWorld
          (templates w
           ++ [ {| outputs :=
                     [ (SmarterVault.n_steps self * SmarterVault.amount_step self,
                        SmarterVault.cold_storage self (calls w)
                          (SmarterVault.n_steps self
                           * SmarterVault.amount_step self)) ];
                   sequence := None;
                   lock_time := None |} ])
          (calls w
           ++ [SmarterVault.n_steps self * SmarterVault.amount_step self])).
Proof. open_world w. unfold to_cold. run. reflexivity. Qed.
End Runs.

Section SubscriptionRuns.
Implicit Types (w : World) (st : Store) (h : list Amount).

Lemma cancel_run (self : CancellableSubscription.Fields Contract) w :
  cancel self w
  = Ok (length (templates w),
        mkWorld
          (templates w
           ++ [ {| outputs :=
                     [ (CancellableSubscription.amount self,
                        CancelContest
                          {| CancelContest.amount :=
                               CancellableSubscription.amount self;
                             CancelContest.recipient :=
                               CancellableSubscription.recipient self;
                             CancelContest.schedule :=
                               CancellableSubscription.schedule self;
                             CancelContest.return_address :=
                               CancellableSubscription.return_address self;
                             CancelContest.watchtower_key :=
                               CancellableSubscription.watchtower_key self;
                             CancelContest.return_timeout :=
                               CancellableSubscription.return_timeout self |}) ];
                   sequence := None;
                   lock_time := None |} ])
          (calls w)).
Proof. open_world w. unfold cancel. run. reflexivity. Qed.

Lemma claim_empty (self : CancellableSubscription.Fields Contract) w :
  CancellableSubscription.schedule self = [] ->
  claim self w = Raise IndexError.
Proof. intros Hs. open_world w. unfold claim. run. rewrite Hs. reflexivity. Qed.

Lemma claim_run (self : CancellableSubscription.Fields Contract) w
    delay amount rest :
  CancellableSubscription.schedule self = (delay, amount) :: rest ->
  claim self w
  = Ok (length (templates w),
        mkWorld
          (templates w
           ++ [ {| outputs :=
                     (amount, CancellableSubscription.recipient self)
                     :: (if len ((delay, amount) :: rest) >? 1 then
                           [ (CancellableSubscription.amount self - amount,
                              CancellableSubscription
                                {| CancellableSubscription.amount :=
                                     CancellableSubscription.amount self - amount;
                                   CancellableSubscription.recipient :=
                                     CancellableSubscription.recipient self;
                                   CancellableSubscription.schedule := rest;
                                   CancellableSubscription.watchtower_key :=
                                     CancellableSubscription.watchtower_key self;
                                   CancellableSubscription.return_timeout :=
                                     CancellableSubscription.return_timeout self;
                                   CancellableSubscription.return_address :=
                                     CancellableSubscription.return_address self |}) ]
                         else []);
                   sequence := sequence_of delay;
                   lock_time := locktime_of delay |} ])
          (calls w)).
Proof.
  intros Hs. open_world w. unfold claim. run. rewrite Hs.
  cbn [lookup list_lookup drop].
  erewrite bind_Ok by apply add_timeout_fresh. run.
  destruct (len ((delay, amount) :: rest) >? 1); run; reflexivity.
Qed.

Lemma finish_cancel_run (self : CancelContest.Fields Contract) w :
  finish_cancel self w
  = Ok (length (templates w),
        mkWorld
          (templates w
           ++ [ {| outputs :=
                     [ (CancelContest.amount self,
                        CancelContest.return_address self) ];
                   sequence := Some (time (CancelContest.return_timeout self));
                   lock_time := None |} ])
          (calls w)).
Proof. open_world w. unfold finish_cancel. run. reflexivity. Qed.

Lemma counterclaim_loop_run (self : CancelContest.Fields Contract) entries :
  forall amount_earned st h,
    counterclaim_loop self amount_earned entries (mkWorld st h)
    = Ok (seq (length st) (length entries),
          mkWorld (st ++ yielded_all self amount_earned entries) h).
Proof.
  induction entries as [|[timeout amount] entries IH]; intros earned st h.
  - cbn. unfold ret. now rewrite app_nil_r.
  - cbn [counterclaim_loop yielded_all]. run.
    erewrite bind_Ok by apply add_timeout_fresh.
    run.
    assert (Hbody :
      (if truthy (CancelContest.amount self - (earned + amount)) then
         add_output (length st) (CancelContest.amount self - (earned + amount))
           (CancelContest.return_address self)
       else ret tt)
        (mkWorld
           (st ++ [ {| outputs := [(earned + amount, CancelContest.recipient self)];
                       sequence := sequence_of timeout;
                       lock_time := locktime_of timeout |} ]) h)
      = Ok (tt, mkWorld (st ++ [yielded self timeout (earned + amount)]) h)).
    { unfold yielded.
      destruct (truthy (CancelContest.amount self - (earned + amount))).
      - now rewrite add_output_last.
      - reflexivity. }
    erewrite bind_Ok by exact Hbody.
    erewrite bind_Ok by apply IH.
    unfold ret. rewrite length_app, Nat.add_1_r. cbn [length seq].
    now rewrite <- app_assoc.
Qed.

Lemma counterclaim_run (self : CancelContest.Fields Contract) w :
  counterclaim self w
  = Ok (seq (length (templates w)) (length (CancelContest.schedule self)),
        mkWorld
          (templates w ++ yielded_all self 0 (CancelContest.schedule self))
          (calls w)).
Proof.
  open_world w. unfold counterclaim, int64. apply counterclaim_loop_run.
Qed.

Lemma read_all_seq st ts :
  read_all (seq (length st) (length ts)) (st ++ ts) = Ok ts.
Proof.
  revert st. induction ts as [|t ts IH]; intros st; [reflexivity |].
  cbn [length seq read_all].
  replace (st ++ t :: ts) with ((st ++ [t]) ++ ts) by now rewrite <- app_assoc.
  rewrite lookup_app_l by (rewrite length_app; cbn; lia).
  rewrite lookup_last.
  specialize (IH (st ++ [t])). rewrite length_app, Nat.add_1_r in IH.
  now rewrite IH.
Qed.

Lemma length_yielded_all self earned entries :
  length (yielded_all self earned entries) = length entries.
Proof.
  revert earned. induction entries as [|[d a] entries IH]; intros earned;
    [reflexivity | cbn; now rewrite IH].
Qed.

Lemma counterclaim_templates (self : CancelContest.Fields Contract) w :
  templates_of (counterclaim self) w
  = Ok (yielded_all self 0 (CancelContest.schedule self)).
Proof.
  unfold templates_of. rewrite counterclaim_run. cbn [templates].
  rewrite <- (length_yielded_all self 0 (CancelContest.schedule self)).
  apply read_all_seq.
Qed.
End SubscriptionRuns.

(** ** The scenarios *)

(** C3. A vault bound with [n_steps = 3] and [amount_step = 100]: [step]
    builds a template whose first output pays 100 to an [UndoSend] with
    [from_contract = cold_storage(100)], [to_key = hot_storage],
    [timeout = mature] and [amount = 100], and whose second output pays 200
    to a [SmarterVault] with [n_steps = 2] and the other fields unchanged;
    [to_cold] builds a template whose single output pays 300 to
    [cold_storage(300)].  The contract [cold_storage] returns is the one it
    answers with in the world of the call. *)
Theorem vault_scenario (cold_storage : list Amount -> Amount -> Contract)
    (hot_storage : Contract) (timeout mature : TimeSpec) (w : World) :
  let vault := vault cold_storage hot_storage 100 timeout mature in
  template_of (step (vault 3)) w
  = Ok {| outputs :=
            [ (100, UndoSend {| UndoSend.from_contract :=
                                  cold_storage (calls w) 100;
                                UndoSend.to_key := hot_storage;
                                UndoSend.timeout := mature;
                                UndoSend.amount := 100 |});
              (200, SmarterVault (vault 2)) ];
          sequence := Some (time timeout);
          lock_time := None |}
  /\ template_of (to_cold (vault 3)) w
     = Ok {| outputs := [ (300, cold_storage (calls w) 300) ];
             sequence := None;
             lock_time := None |}.
Proof.
  intros vault. split; eapply template_of_last.
  - rewrite step_run. reflexivity.
  - rewrite to_cold_run. reflexivity.
Qed.

(** C4. A subscription bound with [schedule = [(h1, 50); (h2, 50)]] and
    [amount = 100]: [claim] builds a template paying 50 to the recipient and
    50 to a continuation [CancellableSubscription] bound with [amount = 50]
    and [schedule = [(h2, 50)]]; the continuation's [claim] builds a template
    with the single output of 50 to the recipient; the recipient receives 100
    over the two templates. *)
Theorem subscription_scenario (h1 h2 : Z) (addr : string)
    (return_address : Contract) (watchtower_key : PubKey)
    (return_timeout : TimeSpec) (w w' : World) :
  let subscription amount schedule :=
    {| CancellableSubscription.amount := amount;
       CancellableSubscription.recipient := PayToSegwitAddress addr;
       CancellableSubscription.schedule := schedule;
       CancellableSubscription.return_address := return_address;
       CancellableSubscription.watchtower_key := watchtower_key;
       CancellableSubscription.return_timeout := return_timeout |} in
  let first :=
    {| outputs :=
         [ (50, PayToSegwitAddress addr);
           (50, CancellableSubscription
                  (subscription 50 [(AbsoluteTimeSpec h2, 50)])) ];
       sequence := None;
       lock_time := Some h1 |} in
  let second :=
    {| outputs := [ (50, PayToSegwitAddress addr) ];
       sequence := None;
       lock_time := Some h2 |} in
  template_of
    (claim (subscription 100 [(AbsoluteTimeSpec h1, 50); (AbsoluteTimeSpec h2, 50)]))
    w = Ok first
  /\ template_of (claim (subscription 50 [(AbsoluteTimeSpec h2, 50)])) w'
     = Ok second
  /\ received addr first + received addr second = 100.
Proof.
  intros subscription first second. split; [|split].
  - eapply template_of_last. erewrite claim_run by reflexivity. reflexivity.
  - eapply template_of_last. erewrite claim_run by reflexivity. reflexivity.
  - unfold received, pays_to, first, second. cbn.
    rewrite String.eqb_refl. reflexivity.
Qed.

(** ** Conservation on the drain paths *)

(** On [half_scheduled], [claim] builds a template whose outputs sum to 50
    while the bound amount is 100: the claim path of a subscription does not
    conserve the bound amount for every binding. *)
Lemma claim_half_scheduled_total :
  template_of (claim half_scheduled) empty_world
  = Ok {| outputs := [ (50, PayToSegwitAddress "recipient") ];
          sequence := None;
          lock_time := Some 10 |}
  /\ output_total {| outputs := [ (50, PayToSegwitAddress "recipient") ];
                     sequence := None;
                     lock_time := Some 10 |} = 50
  /\ CancellableSubscription.amount half_scheduled = 100.
Proof. repeat split. Qed.

(** C1 (amended). For a vault with [n_steps >= 1], the outputs of the [step]
    template sum to [n_steps * amount_step]; the single output of the
    [to_cold] template is [n_steps * amount_step]; for every subscription,
    the single output of the [cancel] template is the bound [amount]; and
    for every subscription whose schedule is not empty, the outputs of the
    [claim] template sum to the bound [amount] when the schedule has more
    than one entry or its single entry's amount is the bound amount, and
    only then; on an empty schedule [claim] raises [IndexError] and builds
    no template. *)
Theorem drain_conservation (vault : SmarterVault.Fields Contract)
    (sub : CancellableSubscription.Fields Contract) (w : World) :
  let value := SmarterVault.n_steps vault * SmarterVault.amount_step vault in
  (1 <= SmarterVault.n_steps vault ->
   exists t, template_of (step vault) w = Ok t /\ output_total t = value)
  /\ (exists t, template_of (to_cold vault) w = Ok t
                /\ outputs t
                   = [ (value, SmarterVault.cold_storage vault (calls w) value) ]
                /\ output_total t = value)
  /\ (exists t, template_of (cancel sub) w = Ok t
                /\ outputs t
                   = [ (CancellableSubscription.amount sub,
                        CancelContest (contest_of sub)) ]
                /\ output_total t = CancellableSubscription.amount sub)
  /\ (forall delay amount rest,
        CancellableSubscription.schedule sub = (delay, amount) :: rest ->
        exists t,
          template_of (claim sub) w = Ok t
          /\ ((rest = [] -> amount = CancellableSubscription.amount sub) ->
              output_total t = CancellableSubscription.amount sub)
          /\ (output_total t = CancellableSubscription.amount sub ->
              rest = [] -> amount = CancellableSubscription.amount sub))
  /\ (CancellableSubscription.schedule sub = [] ->
      template_of (claim sub) w = Raise IndexError).
Proof.
  intros value. split; [| split; [| split; [| split]]].
  - intros Hn. eexists. split; [eapply template_of_last, step_run |].
    subst value. unfold output_total. cbn [outputs].
    destruct (SmarterVault.n_steps vault >? 1) eqn:Hgt; cbn.
    + ring.
    + rewrite Z.gtb_ltb in Hgt. apply Z.ltb_ge in Hgt.
      replace (SmarterVault.n_steps vault) with 1 by lia. ring.
  - eexists. split; [eapply template_of_last, to_cold_run |].
    split; [reflexivity |]. unfold output_total. subst value. cbn. ring.
  - eexists. split; [eapply template_of_last, cancel_run |].
    split; [reflexivity |]. unfold output_total. cbn. ring.
  - intros delay amount rest Hsched.
    eexists. split; [eapply template_of_last, (claim_run _ _ _ _ _ Hsched) |].
    unfold output_total. cbn [outputs].
    destruct rest as [|entry rest].
    + rewrite len_one. cbn. split.
      * intros Hlast. rewrite Hlast by reflexivity. ring.
      * intros Htotal _. lia.
    + rewrite len_more. cbn. split; [intros _; ring | intros _; discriminate].
  - intros Hsched. unfold template_of. now rewrite claim_empty.
Qed.

(** Conservation at [three_steps], and for [cancel] and [claim] at
    [half_scheduled], whose single entry is not the bound amount. *)
Lemma drain_conservation_witness :
  (exists t,
     template_of (step three_steps) empty_world = Ok t /\ output_total t = 300)
  /\ (exists t,
        template_of (cancel half_scheduled) empty_world = Ok t
        /\ output_total t = 100)
  /\ (exists t,
        template_of (claim half_scheduled) empty_world = Ok t
        /\ (output_total t = 100 -> 50 = 100)).
Proof.
  destruct (drain_conservation three_steps half_scheduled empty_world)
    as (Hstep & _ & (t & Hcancel & _ & Htotal) & Hclaim & _).
  split; [apply Hstep; cbn; lia |].
  split; [exists t; split; [exact Hcancel | exact Htotal] |].
  destruct (Hclaim (AbsoluteTimeSpec 10) 50 [] eq_refl) as (t' & Hrun & _ & Honly).
  exists t'. split; [exact Hrun |].
  intros H. exact (Honly H eq_refl).
Defined.

(** ** The generator [counterclaim] *)

Lemma yielded_all_lookup (self : CancelContest.Fields Contract) entries :
  forall amount_earned i timeout amount,
    entries !! i = Some (timeout, amount) ->
    yielded_all self amount_earned entries !! i
    = Some (yielded self timeout (amount_earned + claimed entries i)).
Proof.
  induction entries as [|[d a] entries IH]; intros earned i timeout amount Hi.
  - destruct i; discriminate.
  - destruct i as [|i].
    + injection Hi as -> ->. cbn. do 2 f_equal.
      unfold claimed, schedule_sum. cbn. rewrite take_0. cbn. lia.
    + cbn [yielded_all]. cbn in Hi |- *.
      rewrite (IH _ _ _ _ Hi). do 2 f_equal.
      unfold claimed, schedule_sum. cbn. lia.
Qed.

Lemma schedule_sum_take_mono (entries : list (TimeSpec * Amount)) :
  Forall (fun e => valid_Amount e.2) entries ->
  forall i j : nat, (i <= j)%nat ->
    schedule_sum (take i entries) <= schedule_sum (take j entries).
Proof.
  induction 1 as [|[d a] entries Ha _ IH]; intros i j Hij.
  - now rewrite !take_nil.
  - unfold valid_Amount in Ha. cbn in Ha.
    unfold schedule_sum in *.
    destruct i as [|i], j as [|j]; cbn; try lia.
    + specialize (IH 0%nat j ltac:(lia)). rewrite take_0 in IH. cbn in IH. lia.
    + specialize (IH i j ltac:(lia)). lia.
Qed.

Lemma outputs_yielded_zero (self : CancelContest.Fields Contract) timeout earned :
  earned = CancelContest.amount self ->
  outputs (yielded self timeout earned) = [ (earned, CancelContest.recipient self) ].
Proof.
  intros ->. unfold yielded, truthy. cbn. now rewrite Z.sub_diag.
Qed.

Lemma outputs_yielded_nonzero (self : CancelContest.Fields Contract) timeout earned :
  earned <> CancelContest.amount self ->
  outputs (yielded self timeout earned)
  = [ (earned, CancelContest.recipient self);
      (CancelContest.amount self - earned, CancelContest.return_address self) ].
Proof.
  intros Hne. unfold yielded, truthy. cbn.
  destruct (CancelContest.amount self - earned =? 0) eqn:Hz; [|reflexivity].
  apply Z.eqb_eq in Hz. lia.
Qed.

(** C2. [counterclaim] yields as many templates as the schedule has entries.
    The template for entry [i] pays the recipient the sum of the schedule
    amounts up to that entry; when that sum differs from the bound amount a
    second output refunds the difference to the return address, and when it
    equals the bound amount there is no second output.  With valid
    (non-negative) schedule amounts the claimed amounts never decrease.  For
    the schedule [[(h1, 50); (h2, 50)]] and the amount 100 the templates are
    50 to the recipient with 50 refunded, then 100 to the recipient alone. *)
Theorem counterclaim_generator_laws (self : CancelContest.Fields Contract)
    (w : World) :
  (exists ts,
     templates_of (counterclaim self) w = Ok ts
     /\ length ts = length (CancelContest.schedule self)
     /\ (forall i timeout amount,
           CancelContest.schedule self !! i = Some (timeout, amount) ->
           exists t,
             ts !! i = Some t
             /\ sequence t = sequence_of timeout
             /\ lock_time t = locktime_of timeout
             /\ (claimed (CancelContest.schedule self) i <> CancelContest.amount self ->
                 outputs t
                 = [ (claimed (CancelContest.schedule self) i,
                      CancelContest.recipient self);
                     (CancelContest.amount self
                      - claimed (CancelContest.schedule self) i,
                      CancelContest.return_address self) ])
             /\ (claimed (CancelContest.schedule self) i = CancelContest.amount self ->
                 outputs t
                 = [ (claimed (CancelContest.schedule self) i,
                      CancelContest.recipient self) ])))
  /\ (Forall (fun e => valid_Amount e.2) (CancelContest.schedule self) ->
      forall i j : nat, (i <= j)%nat ->
        claimed (CancelContest.schedule self) i
        <= claimed (CancelContest.schedule self) j)
  /\ (forall h1 h2 recipient return_address watchtower_key return_timeout w',
        templates_of
          (counterclaim
             {| CancelContest.amount := 100;
                CancelContest.recipient := recipient;
                CancelContest.schedule := [(h1, 50); (h2, 50)];
                CancelContest.return_address := return_address;
                CancelContest.watchtower_key := watchtower_key;
                CancelContest.return_timeout := return_timeout |}) w'
        = Ok [ {| outputs := [ (50, recipient); (50, return_address) ];
                  sequence := sequence_of h1;
                  lock_time := locktime_of h1 |};
               {| outputs := [ (100, recipient) ];
                  sequence := sequence_of h2;
                  lock_time := locktime_of h2 |} ]).
Proof.
  split; [| split].
  - exists (yielded_all self 0 (CancelContest.schedule self)).
    split; [apply counterclaim_templates |].
    split; [apply length_yielded_all |].
    intros i timeout amount Hi.
    exists (yielded self timeout (claimed (CancelContest.schedule self) i)).
    split; [now rewrite (yielded_all_lookup _ _ _ _ _ _ Hi) |].
    split; [reflexivity |]. split; [reflexivity |].
    split; [apply outputs_yielded_nonzero | apply outputs_yielded_zero].
  - intros Hvalid i j Hij. unfold claimed.
    apply schedule_sum_take_mono; [exact Hvalid | lia].
  - intros. rewrite counterclaim_templates. reflexivity.
Qed.

(** The generator laws at [two_payments]. *)
Lemma counterclaim_generator_laws_witness :
  (exists ts,
     templates_of (counterclaim two_payments) empty_world = Ok ts
     /\ length ts = 2%nat)
  /\ claimed (CancelContest.schedule two_payments) 0
     <= claimed (CancelContest.schedule two_payments) 1.
Proof.
  destruct (counterclaim_generator_laws two_payments empty_world)
    as [(ts & Hrun & Hlen & _) [Hmono _]].
  split.
  - exists ts. split; [exact Hrun | exact Hlen].
  - apply Hmono; [| lia].
    repeat constructor; unfold valid_Amount; cbn; lia.
Defined.

(** C9. The refund output of a [counterclaim] template is present exactly
    when the bound amount minus the amount claimed so far is non-zero: it is
    the second output, of that amount, when the difference is not zero, and
    the template has the recipient's output alone when it is zero.  So when
    the schedule amounts up to entry [i] exceed the bound amount, the
    generator raises nothing and the template for entry [i] carries a refund
    output of negative amount. *)
Theorem counterclaim_negative_refund (self : CancelContest.Fields Contract)
    (w : World) :
  exists ts,
    templates_of (counterclaim self) w = Ok ts
    /\ (forall k timeout amount,
          CancelContest.schedule self !! k = Some (timeout, amount) ->
          exists t,
            ts !! k = Some t
            /\ (CancelContest.amount self
                - claimed (CancelContest.schedule self) k <> 0 ->
                outputs t
                = [ (claimed (CancelContest.schedule self) k,
                     CancelContest.recipient self);
                    (CancelContest.amount self
                     - claimed (CancelContest.schedule self) k,
                     CancelContest.return_address self) ])
            /\ (CancelContest.amount self
                - claimed (CancelContest.schedule self) k = 0 ->
                outputs t
                = [ (claimed (CancelContest.schedule self) k,
                     CancelContest.recipient self) ]))
    /\ (forall i timeout amount,
          CancelContest.schedule self !! i = Some (timeout, amount) ->
          CancelContest.amount self < claimed (CancelContest.schedule self) i ->
          exists t,
            ts !! i = Some t
            /\ outputs t
               = [ (claimed (CancelContest.schedule self) i,
                    CancelContest.recipient self);
                   (CancelContest.amount self
                    - claimed (CancelContest.schedule self) i,
                    CancelContest.return_address self) ]
            /\ CancelContest.amount self
               - claimed (CancelContest.schedule self) i < 0).
Proof.
  exists (yielded_all self 0 (CancelContest.schedule self)).
  split; [apply counterclaim_templates |].
  split.
  - intros k timeout amount Hk.
    exists (yielded self timeout (claimed (CancelContest.schedule self) k)).
    split; [now rewrite (yielded_all_lookup _ _ _ _ _ _ Hk) |].
    split; intros Hrefund.
    + apply outputs_yielded_nonzero. lia.
    + apply outputs_yielded_zero. lia.
  - intros i timeout amount Hi Hover.
    exists (yielded self timeout (claimed (CancelContest.schedule self) i)).
    split; [now rewrite (yielded_all_lookup _ _ _ _ _ _ Hi) |].
    split; [apply outputs_yielded_nonzero; lia | lia].
Qed.

(** At [overpromised] the first template refunds 10 and the second -40; at
    [two_payments] the second template has no refund output. *)
Lemma counterclaim_negative_refund_witness :
  (exists ts t t',
     templates_of (counterclaim overpromised) empty_world = Ok ts
     /\ ts !! 0%nat = Some t
     /\ outputs t
        = [ (50, PayToSegwitAddress "recipient");
            (10, PayToSegwitAddress "payer") ]
     /\ ts !! 1%nat = Some t'
     /\ outputs t'
        = [ (100, PayToSegwitAddress "recipient");
            (-40, PayToSegwitAddress "payer") ])
  /\ (exists ts t,
        templates_of (counterclaim two_payments) empty_world = Ok ts
        /\ ts !! 1%nat = Some t
        /\ outputs t = [ (100, PayToSegwitAddress "recipient") ]).
Proof.
  split.
  - destruct (counterclaim_negative_refund overpromised empty_world)
      as (ts & Hrun & Hexact & Hnegative).
    destruct (Hexact 0%nat (AbsoluteTimeSpec 10) 50 eq_refl) as (t & Ht & Hout & _).
    destruct (Hnegative 1%nat (AbsoluteTimeSpec 20) 50 eq_refl)
      as (t' & Ht' & Hout' & _); [vm_compute; reflexivity |].
    exists ts, t, t'. split; [exact Hrun |]. split; [exact Ht |].
    split; [apply Hout; vm_compute; discriminate |].
    split; [exact Ht' | exact Hout'].
  - destruct (counterclaim_negative_refund two_payments empty_world)
      as (ts & Hrun & Hexact & _).
    destruct (Hexact 1%nat (AbsoluteTimeSpec 20) 50 eq_refl) as (t & Ht & _ & Hout).
    exists ts, t. split; [exact Hrun |]. split; [exact Ht |].
    apply Hout. reflexivity.
Defined.

(** ** Resolving the nested sub-vaults *)

Section VaultRecursion.
Variable cold_storage : list Amount -> Amount -> Contract.
Variable hot_storage : Contract.
Variable amount_step : Amount.
Variables timeout mature : TimeSpec.

Local Abbreviation vault := (vault cold_storage hot_storage amount_step timeout mature).
Local Abbreviation step_template :=
  (step_template cold_storage hot_storage amount_step timeout mature).
Local Abbreviation step_templates :=
  (step_templates cold_storage hot_storage amount_step timeout mature).

Lemma step_vault_run n st h :
  step (vault n) (mkWorld st h)
  = Ok (length st, mkWorld (st ++ [step_template h n]) (h ++ [amount_step])).
Proof. rewrite step_run. reflexivity. Qed.

Lemma nested_vault_step_template h n :
  nested_vault (step_template h n) = if n >? 1 then Some (vault (n - 1)) else None.
Proof. unfold nested_vault, step_template. cbn. now destruct (n >? 1). Qed.

Lemma length_step_templates h k : length (step_templates h k) = k.
Proof.
  revert h. induction k as [|k IH]; intros h;
    [reflexivity | cbn [step_templates length]; now rewrite IH].
Qed.

Lemma step_templates_lookup k :
  forall h (i : nat),
    (i < k)%nat ->
    step_templates h k !! i
    = Some (step_template (h ++ replicate i amount_step)
              (Z.of_nat k - Z.of_nat i)).
Proof.
  induction k as [|k IH]; intros h i Hi; [lia |].
  destruct i as [|i].
  - cbn [step_templates lookup list_lookup replicate]. rewrite app_nil_r.
    f_equal; f_equal; lia.
  - cbn [step_templates]. change ((?x :: ?l) !! S i) with (l !! i).
    rewrite IH by lia. cbn [replicate]. rewrite <- app_assoc. cbn [app].
    f_equal; f_equal; lia.
Qed.

Lemma resolve_steps_run k :
  forall levels st h,
    (k <= levels)%nat ->
    resolve_steps (S levels) (vault (Z.of_nat (S k))) (mkWorld st h)
    = Ok (seq (length st) (S k),
          mkWorld (st ++ step_templates h (S k))
            (h ++ replicate (S k) amount_step)).
Proof.
  induction k as [|k IH]; intros levels st h Hk.
  - cbn [resolve_steps]. erewrite bind_Ok by apply step_vault_run.
    erewrite bind_Ok by apply read_last.
    rewrite nested_vault_step_template. reflexivity.
  - destruct levels as [|levels]; [lia |].
    cbn [resolve_steps]. erewrite bind_Ok by apply step_vault_run.
    erewrite bind_Ok by apply read_last.
    rewrite nested_vault_step_template.
    replace (Z.of_nat (S (S k)) >? 1) with true
      by (symmetry; rewrite Z.gtb_ltb; apply Z.ltb_lt; lia).
    replace (Z.of_nat (S (S k)) - 1) with (Z.of_nat (S k)) by lia.
    erewrite bind_Ok by (apply IH; lia).
    unfold ret. rewrite length_app, Nat.add_1_r.
    cbn [step_templates seq replicate]. now rewrite <- !app_assoc.
Qed.

Lemma resolve_steps_short levels :
  forall k st h,
    (levels < k)%nat ->
    resolve_steps levels (vault (Z.of_nat k)) (mkWorld st h)
    = Raise RecursionLimitError.
Proof.
  induction levels as [|levels IH]; intros k st h Hk; [reflexivity |].
  cbn [resolve_steps]. erewrite bind_Ok by apply step_vault_run.
  erewrite bind_Ok by apply read_last.
  rewrite nested_vault_step_template.
  replace (Z.of_nat k >? 1) with true
    by (symmetry; rewrite Z.gtb_ltb; apply Z.ltb_lt; lia).
  replace (Z.of_nat k - 1) with (Z.of_nat (k - 1)) by lia.
  apply bind_Raise. apply IH. lia.
Qed.

Lemma resolve_steps_templates k levels w :
  (k <= levels)%nat ->
  templates_of (resolve_steps (S levels) (vault (Z.of_nat (S k)))) w
  = Ok (step_templates (calls w) (S k)).
Proof.
  intros Hk. open_world w. unfold templates_of.
  rewrite resolve_steps_run by exact Hk. cbn [templates].
  rewrite <- (length_step_templates h (S k)) at 1.
  apply read_all_seq.
Qed.
End VaultRecursion.

(** C5. For a vault with [n_steps = N >= 1], following the nested sub-vault
    output of [step] ends after exactly [N] levels: allowed at least [N]
    levels, the resolution returns [N] templates, and allowed fewer it runs
    out of levels.  The template of level [i] (from 0) pays into the
    sub-vault with [N - i - 1] steps as long as one is left, and the last
    template, like the [step] template of any vault with [n_steps = 1],
    holds the [UndoSend] output only.  Level [i] gets its [from_contract]
    from [cold_storage] after the [i] calls of the levels before it. *)
Theorem vault_recursion (cold_storage : list Amount -> Amount -> Contract)
    (hot_storage : Contract) (amount_step : Amount) (timeout mature : TimeSpec)
    (N : Z) (levels : nat) (w : World) :
  1 <= N ->
  (Z.to_nat N <= levels)%nat ->
  let vault := vault cold_storage hot_storage amount_step timeout mature in
  let undo_send (earlier : list Amount) :=
    (amount_step,
     UndoSend {| UndoSend.from_contract := cold_storage earlier amount_step;
                 UndoSend.to_key := hot_storage;
                 UndoSend.timeout := mature;
                 UndoSend.amount := amount_step |}) in
  (exists ts,
     templates_of (resolve_steps levels (vault N)) w = Ok ts
     /\ length ts = Z.to_nat N
     /\ (forall i : nat, (S i < Z.to_nat N)%nat ->
           exists t,
             ts !! i = Some t
             /\ outputs t
                = [ undo_send (calls w ++ replicate i amount_step);
                    ((N - Z.of_nat i - 1) * amount_step,
                     SmarterVault (vault (N - Z.of_nat i - 1))) ])
     /\ (exists t,
           ts !! (Z.to_nat N - 1)%nat = Some t
           /\ outputs t
              = [ undo_send
                    (calls w ++ replicate (Z.to_nat N - 1) amount_step) ]
           /\ nested_vault t = None))
  /\ (forall fewer : nat, (fewer < Z.to_nat N)%nat ->
        templates_of (resolve_steps fewer (vault N)) w
        = Raise RecursionLimitError)
  /\ template_of (step (vault 1)) w
     = Ok {| outputs := [ undo_send (calls w) ];
             sequence := Some (time timeout);
             lock_time := None |}.
Proof.
  intros HN Hlevels v undo_send.
  destruct (Z.to_nat N) as [|k] eqn:Hk; [lia |].
  assert (HNk : N = Z.of_nat (S k)) by lia.
  destruct levels as [|levels]; [lia |].
  split; [| split].
  - exists (step_templates cold_storage hot_storage amount_step timeout mature
              (calls w) (S k)).
    split; [unfold v; rewrite HNk; apply resolve_steps_templates; lia |].
    split; [apply length_step_templates |].
    split.
    + intros i Hi. eexists. split; [apply step_templates_lookup; lia |].
      unfold step_template. cbn [outputs].
      replace (Z.of_nat (S k) - Z.of_nat i >? 1) with true
        by (symmetry; rewrite Z.gtb_ltb; apply Z.ltb_lt; lia).
      unfold undo_send, undo_send_output, v.
      replace (Z.of_nat (S k) - Z.of_nat i - 1) with (N - Z.of_nat i - 1) by lia.
      reflexivity.
    + eexists. split; [apply step_templates_lookup; lia |].
      replace (Z.of_nat (S k) - Z.of_nat (S k - 1)) with 1 by lia.
      split; reflexivity.
  - intros fewer Hfewer. open_world w. unfold templates_of, v.
    rewrite HNk, resolve_steps_short by lia. reflexivity.
  - eapply template_of_last. unfold v. rewrite step_run. reflexivity.
Qed.

(** A vault of three steps resolves in three levels when five are allowed. *)
Lemma vault_recursion_witness :
  exists ts,
    templates_of (resolve_steps 5 three_steps) empty_world = Ok ts
    /\ length ts = 3%nat.
Proof.
  destruct (vault_recursion one_cold (PayToSegwitAddress "hot") 100
              (RelativeTimeSpec 6) (RelativeTimeSpec 12) 3 5 empty_world)
    as [(ts & Hrun & Hlen & _) _].
  - lia.
  - vm_compute. lia.
  - exists ts. split; [exact Hrun | exact Hlen].
Defined.

(** ** Determinism and restartability *)

Lemma builds_restartable (m : M ref) (t : TransactionTemplate) :
  (forall w, exists h,
     m w = Ok (length (templates w), mkWorld (templates w ++ [t]) h)) ->
  restartable m.
Proof.
  intros Hm w1 w2.
  destruct (Hm w1) as [h1 H1]. destruct (Hm w2) as [h2 H2].
  rewrite (template_of_last m _ t _ H1), (template_of_last m _ t _ H2).
  split; [reflexivity |].
  destruct (Hm (mkWorld (templates w1 ++ [t]) h1)) as [h3 H3].
  cbn [templates] in H3.
  split.
  - unfold template_of. erewrite bind_Ok by exact H1.
    rewrite H3. cbn [templates]. now rewrite lookup_last.
  - unfold template_of. erewrite bind_Ok by exact H1.
    erewrite bind_Ok by exact H3. unfold ret. cbn [templates].
    rewrite lookup_app_l by (rewrite length_app; cbn; lia).
    now rewrite lookup_last.
Qed.

Lemma raises_restartable (m : M ref) (e : Error) :
  (forall w, m w = Raise e) -> restartable m.
Proof.
  intros Hm w1 w2. unfold template_of.
  rewrite !(bind_Raise _ _ _ e) by apply Hm. now rewrite !Hm.
Qed.

Lemma read_all_app_l txs ts st extra :
  read_all txs st = Ok ts -> read_all txs (st ++ extra) = Ok ts.
Proof.
  revert ts. induction txs as [|tx txs IH]; intros ts Hread; [exact Hread |].
  cbn [read_all] in *.
  destruct (st !! tx) as [t|] eqn:Htx; [| discriminate].
  rewrite (lookup_app_l_Some _ _ _ _ Htx).
  destruct (read_all txs st) as [ts'|e]; [| discriminate].
  now rewrite (IH ts' eq_refl).
Qed.

Lemma yields_restartable (m : M (list ref)) (ts : list TransactionTemplate) :
  (forall w,
     m w = Ok (seq (length (templates w)) (length ts),
               mkWorld (templates w ++ ts) (calls w))) ->
  restartable_generator m.
Proof.
  intros Hm w1 w2.
  assert (Hone : forall w, templates_of m w = Ok ts).
  { intros w. unfold templates_of. rewrite Hm. apply read_all_seq. }
  rewrite !Hone. split; [reflexivity |]. split.
  - unfold templates_of. erewrite bind_Ok by apply Hm.
    rewrite Hm. apply read_all_seq.
  - unfold templates_of. erewrite bind_Ok by apply Hm.
    erewrite bind_Ok by apply Hm. unfold ret. cbn [templates].
    apply read_all_app_l, read_all_seq.
Qed.

(** The callable of [numbered_steps] answers "cold0" to the first call and
    "cold1" to the next: [step] run in the empty world pays into an
    [UndoSend] guarding "cold0", and [step] run again right after it, on the
    same binding, into one guarding "cold1"; likewise [to_cold] pays "cold0"
    and then "cold1".  Two runs of one path on one binding need not build
    the same template. *)
Lemma step_twice_differs :
  template_of (step numbered_steps) empty_world
  = Ok {| outputs :=
            [ (100, UndoSend {| UndoSend.from_contract := PayToSegwitAddress "cold0";
                                UndoSend.to_key := PayToSegwitAddress "hot";
                                UndoSend.timeout := RelativeTimeSpec 12;
                                UndoSend.amount := 100 |});
              (200, SmarterVault
                      (vault numbered_cold (PayToSegwitAddress "hot") 100
                         (RelativeTimeSpec 6) (RelativeTimeSpec 12) 2)) ];
          sequence := Some 6;
          lock_time := None |}
  /\ template_of (step numbered_steps ;; step numbered_steps) empty_world
     = Ok {| outputs :=
               [ (100, UndoSend {| UndoSend.from_contract := PayToSegwitAddress "cold1";
                                   UndoSend.to_key := PayToSegwitAddress "hot";
                                   UndoSend.timeout := RelativeTimeSpec 12;
                                   UndoSend.amount := 100 |});
                 (200, SmarterVault
                         (vault numbered_cold (PayToSegwitAddress "hot") 100
                            (RelativeTimeSpec 6) (RelativeTimeSpec 12) 2)) ];
             sequence := Some 6;
             lock_time := None |}
  /\ template_of (to_cold numbered_steps) empty_world
     = Ok {| outputs := [ (300, PayToSegwitAddress "cold0") ];
             sequence := None;
             lock_time := None |}
  /\ template_of (to_cold numbered_steps ;; to_cold numbered_steps) empty_world
     = Ok {| outputs := [ (300, PayToSegwitAddress "cold1") ];
             sequence := None;
             lock_time := None |}.
Proof. repeat split. Qed.

(** C6 (amended). The paths that call no bound callable are restartable for
    every binding: [cancel] and [claim] of a subscription, [finish_cancel]
    of a cancellation contest, [undo] of an [UndoSend], [complete] and
    [undo] of an [UndoSend2] build the same template (outputs, sequence
    value and locktime value) whatever the world before the call, also right
    after an earlier call of the same factory, and the generator
    [counterclaim] yields the same sequence of templates in the same way.
    [step] and [to_cold] of a vault are restartable exactly when the
    callable bound to [cold_storage] answers the call they make with the
    same contract whatever calls were made before. *)
Theorem factories_restartable (vault : SmarterVault.Fields Contract)
    (sub : CancellableSubscription.Fields Contract)
    (contest : CancelContest.Fields Contract)
    (send : UndoSend.Fields Contract) (send2 : UndoSend2.Fields) :
  restartable (undo send)
  /\ restartable (UndoSend2.complete send2)
  /\ restartable (UndoSend2.undo send2)
  /\ restartable (cancel sub)
  /\ restartable (claim sub)
  /\ restartable (finish_cancel contest)
  /\ restartable_generator (counterclaim contest)
  /\ (restartable (step vault)
      <-> answers_alike (SmarterVault.cold_storage vault)
            (SmarterVault.amount_step vault))
  /\ (restartable (to_cold vault)
      <-> answers_alike (SmarterVault.cold_storage vault)
            (SmarterVault.n_steps vault * SmarterVault.amount_step vault)).
Proof.
  refine (conj _ (conj _ (conj _ (conj _ (conj _ (conj _ (conj _ (conj _ _)))))))).
  - eapply builds_restartable. intros w. eexists. apply undo_run.
  - eapply builds_restartable. intros w. eexists. apply undo_send2_complete_run.
  - eapply builds_restartable. intros w. eexists. apply undo_send2_undo_run.
  - eapply builds_restartable. intros w. eexists. apply cancel_run.
  - destruct (CancellableSubscription.schedule sub) as [|[delay amount] rest] eqn:Hs.
    + apply (raises_restartable _ IndexError). intros w. apply claim_empty. exact Hs.
    + eapply builds_restartable. intros w. eexists. apply (claim_run _ _ _ _ _ Hs).
  - eapply builds_restartable. intros w. eexists. apply finish_cancel_run.
  - apply (yields_restartable _ (yielded_all contest 0 (CancelContest.schedule contest))).
    intros w. rewrite counterclaim_run. now rewrite length_yielded_all.
  - split.
    + intros Hrestart earlier earlier'.
      destruct (Hrestart (mkWorld [] earlier) (mkWorld [] earlier')) as [Hany _].
      rewrite (template_of_last _ _ _ _ (step_run _ _)) in Hany.
      rewrite (template_of_last _ _ _ _ (step_run _ _)) in Hany.
      cbn [calls] in Hany. injection Hany as Hany. exact Hany.
    + intros Halike. eapply builds_restartable. intros w. eexists.
      rewrite step_run. rewrite (Halike (calls w) []). reflexivity.
  - split.
    + intros Hrestart earlier earlier'.
      destruct (Hrestart (mkWorld [] earlier) (mkWorld [] earlier')) as [Hany _].
      rewrite (template_of_last _ _ _ _ (to_cold_run _ _)) in Hany.
      rewrite (template_of_last _ _ _ _ (to_cold_run _ _)) in Hany.
      cbn [calls] in Hany. injection Hany as Hany. exact Hany.
    + intros Halike. eapply builds_restartable. intros w. eexists.
      rewrite to_cold_run. rewrite (Halike (calls w) []). reflexivity.
Qed.

(** [three_steps] is bound to a callable that always answers "cold": its
    [step] builds the same template in the empty world and after a call. *)
Lemma factories_restartable_witness :
  template_of (step three_steps) empty_world
  = template_of (step three_steps) (mkWorld [] [100])
  /\ template_of (step three_steps ;; step three_steps) empty_world
     = template_of (step three_steps) empty_world.
Proof.
  destruct (factories_restartable three_steps half_scheduled two_payments
              {| UndoSend.from_contract := PayToSegwitAddress "cold";
                 UndoSend.to_key := PayToSegwitAddress "hot";
                 UndoSend.amount := 100;
                 UndoSend.timeout := RelativeTimeSpec 12 |}
              {| UndoSend2.from_contract := PayToSegwitAddress "cold";
                 UndoSend2.to_contract := PayToSegwitAddress "hot";
                 UndoSend2.amount := 100;
                 UndoSend2.timeout := RelativeTimeSpec 12 |})
    as (_ & _ & _ & _ & _ & _ & _ & [_ Hstep] & _).
  destruct (Hstep (fun earlier earlier' => eq_refl)
              empty_world (mkWorld [] [100])) as (Hany & Hagain & _).
  split; [exact Hany | exact Hagain].
Defined.

(** ** The encoding of time specifications *)

(** C7. On a template [t] held at [tx], [add_timeout] hands a
    [RelativeTimeSpec] to [set_sequence], which sets the sequence value (of
    a template that has none) and leaves the locktime value; it hands an
    [AbsoluteTimeSpec] to [set_locktime], which sets the locktime value and
    leaves the sequence value; any other object changes nothing.  Whenever
    [add_timeout] returns, at most one of the two lock fields of the
    template has changed and its outputs have not. *)
Theorem add_timeout_encoding (tx : ref) (delay : PyObject) (w : World)
    (t : TransactionTemplate) :
  templates w !! tx = Some t ->
  match delay with
  | Obj_TimeSpec (RelativeTimeSpec v) =>
      add_timeout tx delay w = set_sequence tx v w
      /\ (sequence t = None ->
          add_timeout tx delay w
          = Ok (tt,
                mkWorld
                  (<[tx := {| outputs := outputs t;
                              sequence := Some v;
                              lock_time := lock_time t |}]> (templates w))
                  (calls w)))
  | Obj_TimeSpec (AbsoluteTimeSpec v) =>
      add_timeout tx delay w = set_locktime tx v w
      /\ (lock_time t = None ->
          add_timeout tx delay w
          = Ok (tt,
                mkWorld
                  (<[tx := {| outputs := outputs t;
                              sequence := sequence t;
                              lock_time := Some v |}]> (templates w))
                  (calls w)))
  | Obj_other _ => add_timeout tx delay w = Ok (tt, w)
  end
  /\ (forall w',
        add_timeout tx delay w = Ok (tt, w') ->
        exists t',
          templates w' !! tx = Some t'
          /\ outputs t' = outputs t
          /\ (sequence t' = sequence t \/ lock_time t' = lock_time t)).
Proof.
  intros Ht.
  assert (Hlt : (tx < length (templates w))%nat) by (eapply lookup_lt_Some; exact Ht).
  split.
  - destruct delay as [[v|v]|repr]; cbn [add_timeout].
    + split; [reflexivity |]. intros Hnone.
      unfold set_sequence, update. now rewrite Ht, Hnone.
    + split; [reflexivity |]. intros Hnone.
      unfold set_locktime, update. now rewrite Ht, Hnone.
    + reflexivity.
  - intros w' Hrun.
    destruct delay as [[v|v]|repr]; cbn [add_timeout] in Hrun.
    + unfold set_sequence, update in Hrun. rewrite Ht in Hrun.
      destruct (sequence t); [discriminate |].
      injection Hrun as <-. cbn [templates].
      eexists. split; [now apply list_lookup_insert_eq |].
      split; [reflexivity | right; reflexivity].
    + unfold set_locktime, update in Hrun. rewrite Ht in Hrun.
      destruct (lock_time t); [discriminate |].
      injection Hrun as <-. cbn [templates].
      eexists. split; [now apply list_lookup_insert_eq |].
      split; [reflexivity | left; reflexivity].
    + injection Hrun as <-. exists t. split; [exact Ht |].
      split; [reflexivity | left; reflexivity].
Qed.

(** A relative delay of 6 on a fresh template. *)
Lemma add_timeout_encoding_witness :
  add_timeout 0%nat (Obj_TimeSpec (RelativeTimeSpec 6))
    (mkWorld [ {| outputs := []; sequence := None; lock_time := None |} ] [])
  = Ok (tt,
        mkWorld [ {| outputs := []; sequence := Some 6; lock_time := None |} ] []).
Proof.
  destruct (add_timeout_encoding 0%nat (Obj_TimeSpec (RelativeTimeSpec 6))
              (mkWorld [ {| outputs := []; sequence := None; lock_time := None |} ] [])
              {| outputs := []; sequence := None; lock_time := None |})
    as [[_ Hset] _].
  - reflexivity.
  - apply Hset. reflexivity.
Defined.

(** ** Subscriptions built by [auto_pay] *)

Lemma comprehension_Ok {A B} (f : A -> result B) (g : A -> B) (l : list A) :
  Forall (fun x => f x = Ok (g x)) l -> comprehension f l = Ok (g <$> l).
Proof.
  induction 1 as [|x l Hx _ IH]; [reflexivity |].
  cbn [comprehension]. now rewrite Hx, IH.
Qed.

Lemma schedule_sum_constant {A} (h : A -> TimeSpec) (v : Amount) (l : list A) :
  schedule_sum ((fun t => (h t, v)) <$> l) = v * Z.of_nat (length l).
Proof.
  induction l as [|x l IH]; [cbn; lia |].
  unfold schedule_sum in *. cbn [fmap list_fmap foldr length snd]. rewrite IH. lia.
Qed.

Lemma schedule_sum_take_nonneg (entries : list (TimeSpec * Amount)) (i : nat) :
  Forall (fun e => valid_Amount e.2) entries ->
  0 <= schedule_sum (take i entries).
Proof.
  intros Hvalid.
  pose proof (schedule_sum_take_mono entries Hvalid 0 i ltac:(lia)) as H.
  now rewrite take_0 in H.
Qed.

Lemma schedule_sum_take_le (entries : list (TimeSpec * Amount)) (i : nat) :
  Forall (fun e => valid_Amount e.2) entries ->
  schedule_sum (take i entries) <= schedule_sum entries.
Proof.
  intros Hvalid.
  destruct (Nat.le_gt_cases i (length entries)) as [Hle|Hgt].
  - pose proof (schedule_sum_take_mono entries Hvalid i (length entries) Hle) as H.
    now rewrite firstn_all in H.
  - rewrite take_ge by lia. lia.
Qed.

(** When the bound amount is the sum of valid schedule amounts, no template
    of [counterclaim] has a negative output. *)
Lemma counterclaim_nonnegative (self : CancelContest.Fields Contract) w ts :
  Forall (fun e => valid_Amount e.2) (CancelContest.schedule self) ->
  CancelContest.amount self = schedule_sum (CancelContest.schedule self) ->
  templates_of (counterclaim self) w = Ok ts ->
  Forall nonnegative_outputs ts.
Proof.
  intros Hvalid Hsum Hrun.
  rewrite counterclaim_templates in Hrun. injection Hrun as <-.
  apply Forall_lookup. intros i t Ht.
  assert (Hi : (i < length (CancelContest.schedule self))%nat).
  { rewrite <- (length_yielded_all self 0). eapply lookup_lt_Some. exact Ht. }
  destruct (lookup_lt_is_Some_2 _ _ Hi) as [[timeout amount] Hentry].
  rewrite (yielded_all_lookup _ _ _ _ _ _ Hentry) in Ht. injection Ht as <-.
  pose proof (schedule_sum_take_nonneg (CancelContest.schedule self) (S i) Hvalid).
  pose proof (schedule_sum_take_le (CancelContest.schedule self) (S i) Hvalid).
  unfold nonnegative_outputs, yielded, claimed. cbn [outputs].
  destruct (truthy _); repeat constructor; cbn; lia.
Qed.

(** Likewise for the template of [claim]. *)
Lemma claim_nonnegative (self : CancellableSubscription.Fields Contract) w t :
  Forall (fun e => valid_Amount e.2) (CancellableSubscription.schedule self) ->
  CancellableSubscription.amount self
  = schedule_sum (CancellableSubscription.schedule self) ->
  template_of (claim self) w = Ok t ->
  nonnegative_outputs t.
Proof.
  intros Hvalid Hsum Hrun.
  destruct (CancellableSubscription.schedule self) as [|[delay amount] rest] eqn:Hs.
  - unfold template_of in Hrun. rewrite claim_empty in Hrun by exact Hs. discriminate.
  - rewrite (template_of_last _ _ _ _ (claim_run _ w _ _ _ Hs)) in Hrun.
    injection Hrun as <-.
    apply Forall_cons in Hvalid as [Ha Hrest]. unfold valid_Amount in Ha. cbn in Ha.
    pose proof (schedule_sum_take_nonneg rest (length rest) Hrest) as Hnn.
    rewrite firstn_all in Hnn.
    unfold schedule_sum in Hsum, Hnn. cbn in Hsum.
    unfold nonnegative_outputs. cbn [outputs].
    destruct (_ >? 1); repeat constructor; cbn; lia.
Qed.

(** C10. [auto_pay] called with [times = n >= 0], whenever the calls of
    [at_height] it makes return, builds a subscription whose schedule has
    [n] entries, entry [t] being [(at_height((t+1)*period), per_time)], and
    whose bound amount is [per_time * n], the sum of the schedule amounts.
    With a valid (non-negative) [per_time], the amounts left after each
    entry are non-negative, and so are all outputs of its [claim] template
    and of the [counterclaim] templates of a contest over the same amount
    and schedule. *)
Theorem auto_pay_schedule (at_height : Z -> result TimeSpec)
    (kwargs : auto_pay.auto_fields) (height : Z -> TimeSpec) :
  0 <= auto_pay.times kwargs ->
  (forall t, 0 <= t < auto_pay.times kwargs ->
     at_height ((t + 1) * auto_pay.period kwargs) = Ok (height t)) ->
  exists sub,
    auto_pay at_height kwargs = Ok sub
    /\ length (CancellableSubscription.schedule sub)
       = Z.to_nat (auto_pay.times kwargs)
    /\ (forall t : nat,
          Z.of_nat t < auto_pay.times kwargs ->
          CancellableSubscription.schedule sub !! t
          = Some (height (Z.of_nat t), auto_pay.per_time kwargs))
    /\ CancellableSubscription.amount sub
       = auto_pay.per_time kwargs * auto_pay.times kwargs
    /\ CancellableSubscription.amount sub
       = schedule_sum (CancellableSubscription.schedule sub)
    /\ (valid_Amount (auto_pay.per_time kwargs) ->
        (forall i : nat,
           0 <= CancellableSubscription.amount sub
                - claimed (CancellableSubscription.schedule sub) i)
        /\ (forall w t,
              template_of (claim sub) w = Ok t -> nonnegative_outputs t)
        /\ (forall contest w,
              CancelContest.amount contest = CancellableSubscription.amount sub ->
              CancelContest.schedule contest = CancellableSubscription.schedule sub ->
              exists ts,
                templates_of (counterclaim contest) w = Ok ts
                /\ Forall nonnegative_outputs ts)).
Proof.
  intros Hn Hheight.
  set (n := auto_pay.times kwargs) in *.
  set (v := auto_pay.per_time kwargs) in *.
  set (entries := (fun t => (height t, v)) <$> seqZ 0 n).
  assert (Hcomp :
    comprehension
      (fun t =>
         match at_height ((t + 1) * auto_pay.period kwargs) with
         | Ok h => Ok (h, v)
         | Raise e => Raise e
         end)
      (range n)
    = Ok entries).
  { apply comprehension_Ok. apply Forall_forall. intros t Ht.
    apply elem_of_seqZ in Ht. now rewrite Hheight by lia. }
  assert (Hsum : schedule_sum entries = v * n).
  { unfold entries. rewrite schedule_sum_constant, length_seqZ. f_equal. lia. }
  assert (Hvalid : valid_Amount v -> Forall (fun e => valid_Amount e.2) entries).
  { intros Hv. unfold entries. apply Forall_fmap, Forall_forall. intros t _. exact Hv. }
  eexists. split.
  { unfold auto_pay. fold n. fold v. rewrite Hcomp. reflexivity. }
  cbn [CancellableSubscription.schedule CancellableSubscription.amount].
  split; [unfold entries; now rewrite length_fmap, length_seqZ |].
  split.
  { intros t Ht. unfold entries. rewrite list_lookup_fmap.
    rewrite lookup_seqZ_lt by lia. reflexivity. }
  split; [reflexivity |]. split; [now rewrite Hsum |].
  intros Hv. specialize (Hvalid Hv). split; [| split].
  - intros i. pose proof (schedule_sum_take_le entries (S i) Hvalid).
    unfold claimed. lia.
  - intros w t.
    apply claim_nonnegative;
      cbn [CancellableSubscription.schedule CancellableSubscription.amount];
      [exact Hvalid | now rewrite Hsum].
  - intros contest w Hamount Hsched.
    exists (yielded_all contest 0 (CancelContest.schedule contest)).
    split; [apply counterclaim_templates |].
    apply (counterclaim_nonnegative contest w).
    + now rewrite Hsched.
    + rewrite Hamount, Hsched.
      cbn [CancellableSubscription.schedule CancellableSubscription.amount].
      now rewrite Hsum.
    + apply counterclaim_templates.
Qed.

(** [auto_pay] at [quarterly], with an [at_height] that always returns. *)
Lemma auto_pay_schedule_witness :
  exists sub,
    auto_pay (fun d => Ok (AbsoluteTimeSpec d)) quarterly = Ok sub
    /\ CancellableSubscription.schedule sub
       = [ (AbsoluteTimeSpec 144, 10); (AbsoluteTimeSpec 288, 10);
           (AbsoluteTimeSpec 432, 10) ]
    /\ CancellableSubscription.amount sub = 30.
Proof.
  destruct (auto_pay_schedule (fun d => Ok (AbsoluteTimeSpec d)) quarterly
              (fun t => AbsoluteTimeSpec ((t + 1) * 144)))
    as (sub & Hrun & _).
  - cbn. lia.
  - intros t _. reflexivity.
  - exists sub. split; [exact Hrun |].
    vm_compute in Hrun. injection Hrun as <-. split; reflexivity.
Defined.

(** ** The payment-list boundary *)

Lemma comprehension_Forall2 {A B} (f : A -> result B) (l : list A) (rs : list B) :
  Forall2 (fun x r => f x = Ok r) l rs -> comprehension f l = Ok rs.
Proof.
  induction 1 as [|x r l rs Hx _ IH]; [reflexivity |].
  cbn [comprehension]. now rewrite Hx, IH.
Qed.

Lemma forallb_Forall_true {A} (p : A -> bool) (l : list A) :
  forallb p l = true <-> Forall (fun x => p x = true) l.
Proof.
  induction l as [|x l IH]; cbn [forallb].
  - split; [constructor | reflexivity].
  - rewrite andb_true_iff, IH, Forall_cons. reflexivity.
Qed.

(** C8. [convert] validates its argument before anything else: an argument
    that is not an array of items conforming to the address schema raises
    the validation error, whatever [address.convert] would do.  On an array
    of conforming items whose conversions return, [convert] returns the list
    of the converted items, of the same length and in the same order. *)
Theorem convert_validates_then_maps (Context BindableContract : Type)
    (address_schema : JSON -> bool)
    (address_convert : JSON -> Context -> result (Amount * BindableContract))
    (ctx : Context) (items : list JSON)
    (pairs : list (Amount * BindableContract)) :
  Forall (fun p => address_schema p = true) items ->
  Forall2 (fun p r => address_convert p ctx = Ok r) items pairs ->
  (payments.convert Context BindableContract address_schema address_convert
     (JArray items) ctx = Ok pairs
   /\ length pairs = length items
   /\ (forall i p, items !! i = Some p ->
         exists r, pairs !! i = Some r /\ address_convert p ctx = Ok r))
  /\ (forall arg,
        (forall items', arg = JArray items' ->
           ~ Forall (fun p => address_schema p = true) items') ->
        payments.convert Context BindableContract address_schema address_convert
          arg ctx = Raise SchemaValidationError).
Proof.
  intros Hvalid Hconv. split; [split; [| split] |].
  - unfold payments.convert, payments.validate.
    apply forallb_Forall_true in Hvalid. rewrite Hvalid.
    now apply comprehension_Forall2.
  - symmetry. eapply Forall2_length. exact Hconv.
  - intros i p Hp.
    destruct (Forall2_lookup_l _ _ _ _ _ Hconv Hp) as (r & Hr & Hpr).
    exists r. split; assumption.
  - intros arg Hbad. unfold payments.convert, payments.validate.
    destruct arg as [| | | |items'|]; try reflexivity.
    destruct (forallb address_schema items') eqn:Hall; [| reflexivity].
    apply forallb_Forall_true in Hall. now destruct (Hbad items' eq_refl).
Qed.

(** A list of two payments, with an address schema accepting objects and a
    conversion reading the address and the amount of each. *)
Lemma convert_validates_then_maps_witness :
  payments.convert unit string
    (fun p => match p with JObject _ => true | _ => false end)
    (fun p _ =>
       match p with
       | JObject [(_, JString a); (_, JNumber n)] => Ok (n, a)
       | _ => Raise ValueError
       end)
    (JArray [ JObject [("address", JString "bc1q"); ("amount", JNumber 5)];
              JObject [("address", JString "bc1p"); ("amount", JNumber 7)] ])
    tt
  = Ok [ (5, "bc1q"); (7, "bc1p") ].
Proof.
  apply (convert_validates_then_maps unit string
           (fun p => match p with JObject _ => true | _ => false end)
           (fun p _ =>
              match p with
              | JObject [(_, JString a); (_, JNumber n)] => Ok (n, a)
              | _ => Raise ValueError
              end)
           tt
           [ JObject [("address", JString "bc1q"); ("amount", JNumber 5)];
             JObject [("address", JString "bc1p"); ("amount", JNumber 7)] ]
           [ (5, "bc1q"); (7, "bc1p") ]).
  - repeat constructor.
  - repeat constructor.
Defined.

(** ** The contest never creates or loses value *)

Lemma output_total_yielded (self : CancelContest.Fields Contract) timeout earned :
  output_total (yielded self timeout earned) = CancelContest.amount self.
Proof.
  unfold output_total, yielded, truthy. cbn [outputs].
  destruct (CancelContest.amount self - earned =? 0) eqn:Hz; cbn.
  - apply Z.eqb_eq in Hz. lia.
  - lia.
Qed.

Lemma Forall_yielded_all (P : TransactionTemplate -> Prop)
    (self : CancelContest.Fields Contract) entries :
  (forall timeout earned, P (yielded self timeout earned)) ->
  forall earned, Forall P (yielded_all self earned entries).
Proof.
  intros HP. induction entries as [|[d a] entries IH]; intros earned; cbn.
  - constructor.
  - constructor; [apply HP | apply IH].
Qed.

(** X1. Whatever the binding, every template [counterclaim] yields spends
    exactly the bound amount: what the recipient is paid and what is
    refunded add up to it, also when the schedule promises more than is
    bound and the refund is negative. *)
Theorem counterclaim_conserves (self : CancelContest.Fields Contract)
    (w : World) :
  exists ts,
    templates_of (counterclaim self) w = Ok ts
    /\ length ts = length (CancelContest.schedule self)
    /\ Forall (fun t => output_total t = CancelContest.amount self) ts.
Proof.
  exists (yielded_all self 0 (CancelContest.schedule self)).
  split; [apply counterclaim_templates |].
  split; [apply length_yielded_all |].
  apply Forall_yielded_all. intros. apply output_total_yielded.
Qed.

(** X2. What [cancel] pays into the contest is what every way out of the
    contest spends: [cancel] pays the bound amount to a [CancelContest] with
    the subscription's fields; [finish_cancel] of that contest returns the
    whole amount to the return address, behind the sequence value of
    [return_timeout]; and each of its [counterclaim] templates spends the
    same amount. *)
Theorem cancel_funds_contest (sub : CancellableSubscription.Fields Contract)
    (w w' w'' : World) :
  template_of (cancel sub) w
  = Ok {| outputs :=
            [ (CancellableSubscription.amount sub,
               CancelContest (contest_of sub)) ];
          sequence := None;
          lock_time := None |}
  /\ template_of (finish_cancel (contest_of sub)) w'
     = Ok {| outputs :=
               [ (CancellableSubscription.amount sub,
                  CancellableSubscription.return_address sub) ];
             sequence :=
               Some (time (CancellableSubscription.return_timeout sub));
             lock_time := None |}
  /\ exists ts,
       templates_of (counterclaim (contest_of sub)) w'' = Ok ts
       /\ length ts = length (CancellableSubscription.schedule sub)
       /\ Forall (fun t => output_total t = CancellableSubscription.amount sub) ts.
Proof.
  split; [| split].
  - eapply template_of_last. rewrite cancel_run. reflexivity.
  - eapply template_of_last. rewrite finish_cancel_run. reflexivity.
  - exists (yielded_all (contest_of sub) 0 (CancellableSubscription.schedule sub)).
    split; [apply (counterclaim_templates (contest_of sub)) |].
    split; [apply length_yielded_all |].
    apply Forall_yielded_all. intros. apply (output_total_yielded (contest_of sub)).
Qed.

(** X3. When the bound amount is the sum of a non-empty schedule, the last
    template of [counterclaim] pays the whole amount to the recipient and
    has no refund output; and when the schedule amounts are all positive,
    every earlier template carries a refund output of positive amount. *)
Theorem counterclaim_balanced (self : CancelContest.Fields Contract)
    (w : World) :
  CancelContest.schedule self <> [] ->
  CancelContest.amount self = schedule_sum (CancelContest.schedule self) ->
  exists ts,
    templates_of (counterclaim self) w = Ok ts
    /\ (exists t,
          ts !! (length (CancelContest.schedule self) - 1)%nat = Some t
          /\ outputs t
             = [ (CancelContest.amount self, CancelContest.recipient self) ])
    /\ (Forall (fun e : TimeSpec * Amount => 0 < e.2) (CancelContest.schedule self) ->
        forall i t,
          (S i < length (CancelContest.schedule self))%nat ->
          ts !! i = Some t ->
          exists refund,
            0 < refund
            /\ outputs t
               = [ (CancelContest.amount self - refund,
                    CancelContest.recipient self);
                   (refund, CancelContest.return_address self) ]).
Proof.
  intros Hne Hsum.
  exists (yielded_all self 0 (CancelContest.schedule self)).
  split; [apply counterclaim_templates |].
  set (entries := CancelContest.schedule self) in *.
  split.
  - assert (Hlast : (length entries - 1 < length entries)%nat)
      by (destruct entries; [congruence | cbn; lia]).
    destruct (lookup_lt_is_Some_2 _ _ Hlast) as [[timeout a] Hentry].
    eexists. split; [apply (yielded_all_lookup _ _ _ _ _ _ Hentry) |].
    assert (Hall : claimed entries (length entries - 1) = CancelContest.amount self).
    { unfold claimed. rewrite take_ge by lia. now rewrite Hsum. }
    rewrite Z.add_0_l, outputs_yielded_zero by exact Hall.
    now rewrite Hall.
  - intros Hpos i t Hi Ht.
    assert (Hi' : (i < length entries)%nat) by lia.
    destruct (lookup_lt_is_Some_2 _ _ Hi') as [[timeout a] Hentry].
    rewrite (yielded_all_lookup _ _ _ _ _ _ Hentry) in Ht. injection Ht as <-.
    rewrite Z.add_0_l.
    assert (Hlt : claimed entries i < CancelContest.amount self).
    { rewrite Hsum. unfold claimed.
      rewrite <- (take_drop (S i) entries) at 2.
      assert (Happ : forall l1 l2 : list (TimeSpec * Amount),
                schedule_sum (l1 ++ l2) = schedule_sum l1 + schedule_sum l2).
      { intros l1 l2. unfold schedule_sum. induction l1 as [|x l1 IH]; cbn; lia. }
      rewrite Happ.
      destruct (drop (S i) entries) as [|[d' a'] rest] eqn:Hdrop.
      - apply (f_equal length) in Hdrop. rewrite length_drop in Hdrop. cbn in Hdrop. lia.
      - assert (Hin : Forall (fun e : TimeSpec * Amount => 0 < e.2) ((d', a') :: rest)).
        { rewrite <- Hdrop. now apply Forall_drop. }
        apply Forall_cons in Hin as [Ha' Hrest]. cbn in Ha'.
        assert (0 <= schedule_sum rest).
        { clear -Hrest. unfold schedule_sum.
          induction Hrest as [|[d x] l Hx _ IH]; cbn in *; lia. }
        unfold schedule_sum in *. cbn. lia. }
    exists (CancelContest.amount self - claimed entries i).
    split; [lia |].
    rewrite outputs_yielded_nonzero by lia.
    do 3 f_equal. lia.
Qed.

(** The laws at [two_payments]: the second template pays 100 and refunds
    nothing. *)
Lemma counterclaim_balanced_witness :
  exists ts t,
    templates_of (counterclaim two_payments) empty_world = Ok ts
    /\ ts !! 1%nat = Some t
    /\ outputs t = [ (100, PayToSegwitAddress "recipient") ].
Proof.
  destruct (counterclaim_balanced two_payments empty_world)
    as (ts & Hrun & (t & Ht & Hout) & _).
  - discriminate.
  - reflexivity.
  - exists ts, t. split; [exact Hrun |]. split; [exact Ht | exact Hout].
Defined.

(** ** Resolving a subscription claim by claim *)

Lemma claim_run_template (self : CancellableSubscription.Fields Contract) w
    delay amount rest :
  CancellableSubscription.schedule self = (delay, amount) :: rest ->
  claim self w
  = Ok (length (templates w),
        mkWorld
          (templates w
           ++ [ claim_template self (CancellableSubscription.amount self)
                  delay amount rest ])
          (calls w)).
Proof.
  intros Hs. rewrite (claim_run _ _ _ _ _ Hs). unfold claim_template, rebound.
  destruct rest as [|entry rest]; [rewrite len_one | rewrite len_more]; reflexivity.
Qed.

Lemma claim_templates_rebound (self : CancellableSubscription.Fields Contract)
    amount schedule entries :
  forall total,
    claim_templates (rebound self amount schedule) total entries
    = claim_templates self total entries.
Proof.
  induction entries as [|[d a] entries IH]; intros total; [reflexivity |].
  cbn [claim_templates]. now rewrite IH.
Qed.

Lemma length_claim_templates (self : CancellableSubscription.Fields Contract)
    entries :
  forall total, length (claim_templates self total entries) = length entries.
Proof.
  induction entries as [|[d a] entries IH]; intros total;
    [reflexivity | cbn; now rewrite IH].
Qed.

Lemma claim_templates_lookup (self : CancellableSubscription.Fields Contract)
    entries :
  forall total i delay amount,
    entries !! i = Some (delay, amount) ->
    claim_templates self total entries !! i
    = Some (claim_template self (total - schedule_sum (take i entries))
              delay amount (drop (S i) entries)).
Proof.
  induction entries as [|[d a] entries IH]; intros total i delay amount Hi.
  - destruct i; discriminate.
  - destruct i as [|i].
    + injection Hi as -> ->. cbn. rewrite drop_0. do 2 f_equal.
      unfold schedule_sum. cbn. lia.
    + cbn [claim_templates]. cbn in Hi |- *.
      rewrite (IH _ _ _ _ Hi). do 2 f_equal.
      unfold schedule_sum. cbn. lia.
Qed.

Lemma continuation_claim_template (self : CancellableSubscription.Fields Contract)
    total delay amount rest :
  continuation (claim_template self total delay amount rest)
  = match rest with
    | [] => None
    | _ :: _ => Some (rebound self (total - amount) rest)
    end.
Proof. destruct rest; reflexivity. Qed.

Lemma resolve_claims_run rest :
  forall delay amount (self : CancellableSubscription.Fields Contract) levels
         st h,
    CancellableSubscription.schedule self = (delay, amount) :: rest ->
    (length rest <= levels)%nat ->
    resolve_claims (S levels) self (mkWorld st h)
    = Ok (seq (length st) (S (length rest)),
          mkWorld
            (st ++ claim_templates self (CancellableSubscription.amount self)
                     ((delay, amount) :: rest))
            h).
Proof.
  induction rest as [|[d' a'] rest IH]; intros delay amount self levels st h Hs Hlev.
  - cbn [resolve_claims]. erewrite bind_Ok by (apply claim_run_template; exact Hs).
    cbn [templates calls].
    erewrite bind_Ok by apply read_last.
    rewrite continuation_claim_template. reflexivity.
  - destruct levels as [|levels]; [cbn in Hlev; lia |].
    cbn [resolve_claims]. erewrite bind_Ok by (apply claim_run_template; exact Hs).
    cbn [templates calls].
    erewrite bind_Ok by apply read_last.
    rewrite continuation_claim_template.
    erewrite bind_Ok by (apply IH; [reflexivity | cbn in Hlev; lia]).
    unfold ret. rewrite length_app, Nat.add_1_r.
    cbn [CancellableSubscription.amount rebound].
    rewrite claim_templates_rebound.
    cbn [claim_templates seq length]. now rewrite <- app_assoc.
Qed.

Lemma resolve_claims_short levels :
  forall (self : CancellableSubscription.Fields Contract) w,
    (levels < length (CancellableSubscription.schedule self))%nat ->
    resolve_claims levels self w = Raise RecursionLimitError.
Proof.
  induction levels as [|levels IH]; intros self w Hlev; [reflexivity |].
  destruct (CancellableSubscription.schedule self) as [|[d a] rest] eqn:Hs;
    [cbn in Hlev; lia |].
  cbn [resolve_claims]. erewrite bind_Ok by (apply claim_run_template; exact Hs).
  erewrite bind_Ok by apply read_last.
  rewrite continuation_claim_template.
  destruct rest as [|entry rest]; [cbn in Hlev; lia |].
  apply bind_Raise. apply IH. cbn in Hlev |- *. lia.
Qed.

Lemma resolve_claims_templates (self : CancellableSubscription.Fields Contract)
    levels w :
  CancellableSubscription.schedule self <> [] ->
  (length (CancellableSubscription.schedule self) <= levels)%nat ->
  templates_of (resolve_claims levels self) w
  = Ok (claim_templates self (CancellableSubscription.amount self)
          (CancellableSubscription.schedule self)).
Proof.
  intros Hne Hlev.
  destruct (CancellableSubscription.schedule self) as [|[d a] rest] eqn:Hs;
    [congruence |].
  destruct levels as [|levels]; [cbn in Hlev; lia |].
  open_world w. unfold templates_of.
  rewrite (resolve_claims_run rest d a self levels st h Hs) by (cbn in Hlev; lia).
  cbn [templates].
  rewrite <- (length_claim_templates self ((d, a) :: rest)
                (CancellableSubscription.amount self)) at 1.
  apply read_all_seq.
Qed.

(** X4. A subscription with a schedule of [K >= 1] entries is claimed in
    exactly [K] steps: allowed at least [K] levels, following the
    continuation output of [claim] returns [K] templates, and allowed fewer
    it runs out of levels.  The template of claim [i] (from 0) pays the
    recipient the amount of entry [i] under the lock of that entry, and
    continues into the subscription bound with the entries after [i] and
    with the amount left after the first [i + 1], as long as an entry is
    left; the last template has no continuation. *)
Theorem claim_chain (self : CancellableSubscription.Fields Contract)
    (levels : nat) (w : World) :
  CancellableSubscription.schedule self <> [] ->
  (length (CancellableSubscription.schedule self) <= levels)%nat ->
  (exists ts,
     templates_of (resolve_claims levels self) w = Ok ts
     /\ length ts = length (CancellableSubscription.schedule self)
     /\ forall i delay amount,
          CancellableSubscription.schedule self !! i = Some (delay, amount) ->
          exists t,
            ts !! i = Some t
            /\ outputs t !! 0%nat
               = Some (amount, CancellableSubscription.recipient self)
            /\ sequence t = sequence_of delay
            /\ lock_time t = locktime_of delay
            /\ continuation t
               = if bool_decide
                      (S i < length (CancellableSubscription.schedule self))%nat
                 then
                   Some (rebound self
                           (CancellableSubscription.amount self
                            - claimed (CancellableSubscription.schedule self) i)
                           (drop (S i) (CancellableSubscription.schedule self)))
                 else None)
  /\ (forall fewer : nat,
        (fewer < length (CancellableSubscription.schedule self))%nat ->
        templates_of (resolve_claims fewer self) w = Raise RecursionLimitError).
Proof.
  intros Hne Hlev. split.
  - eexists. split; [now apply resolve_claims_templates |].
    split; [apply length_claim_templates |].
    intros i delay amount Hi.
    eexists. split; [apply (claim_templates_lookup _ _ _ _ _ _ Hi) |].
    split; [reflexivity |]. split; [reflexivity |]. split; [reflexivity |].
    rewrite continuation_claim_template.
    set (entries := CancellableSubscription.schedule self) in *.
    assert (Hlen : length (drop (S i) entries) = (length entries - S i)%nat)
      by apply length_drop.
    assert (Hsum : claimed entries i = schedule_sum (take i entries) + amount).
    { unfold claimed. rewrite (take_S_r _ _ _ Hi).
      unfold schedule_sum. rewrite foldr_app. cbn.
      generalize (take i entries). intros l.
      induction l as [|x l IH]; cbn; lia. }
    case_bool_decide as Hlast.
    + destruct (drop (S i) entries) as [|e rest]; [cbn in Hlen; lia |].
      do 2 f_equal. lia.
    + destruct (drop (S i) entries) as [|e rest]; [reflexivity | cbn in Hlen; lia].
  - intros fewer Hfewer. unfold templates_of.
    now rewrite resolve_claims_short.
Qed.

(** [two_claims] is claimed in two steps when four levels are allowed. *)
Lemma claim_chain_witness :
  exists ts,
    templates_of (resolve_claims 4 two_claims) empty_world = Ok ts
    /\ length ts = 2%nat.
Proof.
  destruct (claim_chain two_claims 4 empty_world) as [(ts & Hrun & Hlen & _) _].
  - discriminate.
  - cbn. lia.
  - exists ts. split; [exact Hrun | exact Hlen].
Defined.

Lemma received_claim_template (self : CancellableSubscription.Fields Contract)
    addr total delay amount rest :
  CancellableSubscription.recipient self = PayToSegwitAddress addr ->
  received addr (claim_template self total delay amount rest) = amount.
Proof.
  intros Hrecipient. unfold received, claim_template, pays_to. cbn [outputs].
  rewrite Hrecipient. destruct rest; cbn; rewrite String.eqb_refl; lia.
Qed.

Lemma total_received_claim_templates
    (self : CancellableSubscription.Fields Contract) addr entries :
  CancellableSubscription.recipient self = PayToSegwitAddress addr ->
  forall total (j : nat),
    total_received addr (take j (claim_templates self total entries))
    = schedule_sum (take j entries).
Proof.
  intros Hrecipient.
  induction entries as [|[d a] entries IH]; intros total j.
  - cbn [claim_templates]. rewrite !take_nil. reflexivity.
  - destruct j as [|j]; [reflexivity |].
    cbn [claim_templates take]. unfold total_received, schedule_sum in *.
    cbn [foldr snd].
    rewrite IH, (received_claim_template _ _ _ _ _ _ Hrecipient). reflexivity.
Qed.

Lemma output_total_claim_template
    (self : CancellableSubscription.Fields Contract) total delay amount rest :
  output_total (claim_template self total delay amount rest)
  = match rest with [] => amount | _ :: _ => total end.
Proof. destruct rest; unfold output_total; cbn; lia. Qed.

(** X5. Over the whole chain of claims of a subscription whose recipient is
    a segwit address, that address receives the sum of the schedule amounts.
    Every claim but the last spends exactly the amount its subscription is
    bound with; the last one spends that amount less the excess of the
    originally bound amount over the schedule sum, which no output of any
    claim carries. *)
Theorem claim_chain_totals (self : CancellableSubscription.Fields Contract)
    (addr : string) (levels : nat) (w : World) :
  CancellableSubscription.recipient self = PayToSegwitAddress addr ->
  CancellableSubscription.schedule self <> [] ->
  (length (CancellableSubscription.schedule self) <= levels)%nat ->
  exists ts,
    templates_of (resolve_claims levels self) w = Ok ts
    /\ total_received addr ts
       = schedule_sum (CancellableSubscription.schedule self)
    /\ forall (i : nat) t,
         ts !! i = Some t ->
         let bound :=
           CancellableSubscription.amount self
           - schedule_sum (take i (CancellableSubscription.schedule self)) in
         ((S i < length (CancellableSubscription.schedule self))%nat ->
          output_total t = bound)
         /\ (S i = length (CancellableSubscription.schedule self) ->
             output_total t
             = bound - (CancellableSubscription.amount self
                        - schedule_sum (CancellableSubscription.schedule self))).
Proof.
  intros Hrecipient Hne Hlev.
  eexists. split; [now apply resolve_claims_templates |].
  set (entries := CancellableSubscription.schedule self) in *.
  set (total := CancellableSubscription.amount self).
  split.
  - rewrite <- (take_ge (claim_templates self total entries) (length entries))
      by (rewrite length_claim_templates; lia).
    rewrite (total_received_claim_templates _ _ _ Hrecipient).
    now rewrite take_ge by lia.
  - intros i t Ht bound.
    assert (Hi : (i < length entries)%nat).
    { rewrite <- (length_claim_templates self entries total).
      eapply lookup_lt_Some. exact Ht. }
    destruct (lookup_lt_is_Some_2 _ _ Hi) as [[delay amount] Hentry].
    rewrite (claim_templates_lookup _ _ _ _ _ _ Hentry) in Ht. injection Ht as <-.
    rewrite output_total_claim_template.
    assert (Hlen : length (drop (S i) entries) = (length entries - S i)%nat)
      by apply length_drop.
    split; intros Hcase.
    + destruct (drop (S i) entries); [cbn in Hlen; lia | reflexivity].
    + destruct (drop (S i) entries); [| cbn in Hlen; lia].
      assert (Hall : schedule_sum entries = schedule_sum (take i entries) + amount).
      { rewrite <- (take_ge entries (S i)) at 1 by lia.
        rewrite (take_S_r _ _ _ Hentry).
        unfold schedule_sum. rewrite foldr_app. cbn.
        generalize (take i entries). intros l.
        induction l as [|x l IH]; cbn; lia. }
      subst bound. fold total. lia.
Qed.

(** At [half_scheduled] the recipient receives 50 of the 100 bound, and the
    payer's address nothing. *)
Lemma claim_chain_totals_witness :
  exists ts,
    templates_of (resolve_claims 1 half_scheduled) empty_world = Ok ts
    /\ total_received "recipient" ts = 50.
Proof.
  destruct (claim_chain_totals half_scheduled "recipient" 1 empty_world)
    as (ts & Hrun & Hpaid & _).
  - reflexivity.
  - discriminate.
  - cbn. lia.
  - exists ts. split; [exact Hrun | exact Hpaid].
Defined.

(** X6. The two ways of paying the recipient agree: for a subscription whose
    recipient is a segwit address, the first output of the template
    [counterclaim] yields for entry [i] of the contest [cancel] pays into
    pays that address exactly what it receives from the claims [0] to [i]
    of the subscription together. *)
Theorem counterclaim_matches_claims
    (self : CancellableSubscription.Fields Contract) (addr : string)
    (levels : nat) (w w' : World) :
  CancellableSubscription.recipient self = PayToSegwitAddress addr ->
  CancellableSubscription.schedule self <> [] ->
  (length (CancellableSubscription.schedule self) <= levels)%nat ->
  exists claims contested,
    templates_of (resolve_claims levels self) w = Ok claims
    /\ templates_of (counterclaim (contest_of self)) w' = Ok contested
    /\ length contested = length claims
    /\ forall i : nat,
         (i < length claims)%nat ->
         exists t,
           contested !! i = Some t
           /\ outputs t !! 0%nat
              = Some (total_received addr (take (S i) claims),
                      PayToSegwitAddress addr).
Proof.
  intros Hrecipient Hne Hlev.
  eexists. eexists. split; [now apply resolve_claims_templates |].
  split; [apply (counterclaim_templates (contest_of self)) |].
  cbn [contest_of CancelContest.schedule].
  split; [now rewrite length_yielded_all, length_claim_templates |].
  intros i Hi. rewrite length_claim_templates in Hi.
  destruct (lookup_lt_is_Some_2 _ _ Hi) as [[delay amount] Hentry].
  eexists. split; [apply (yielded_all_lookup _ _ _ _ _ _ Hentry) |].
  rewrite (total_received_claim_templates _ _ _ Hrecipient).
  unfold yielded.
  cbn [outputs lookup list_lookup CancelContest.recipient contest_of].
  rewrite Hrecipient. unfold claimed. now rewrite Z.add_0_l.
Qed.

(** The agreement at [two_claims]: the second contest template pays the
    recipient the 100 of the two claims. *)
Lemma counterclaim_matches_claims_witness :
  exists claims contested t,
    templates_of (resolve_claims 2 two_claims) empty_world = Ok claims
    /\ templates_of (counterclaim (contest_of two_claims)) empty_world
       = Ok contested
    /\ contested !! 1%nat = Some t
    /\ outputs t !! 0%nat
       = Some (total_received "recipient" (take 2 claims),
               PayToSegwitAddress "recipient").
Proof.
  destruct (counterclaim_matches_claims two_claims "recipient" 2
              empty_world empty_world)
    as (claims & contested & Hc & Hk & Hlen & Hpay).
  - reflexivity.
  - discriminate.
  - cbn. lia.
  - destruct (Hpay 1%nat) as (t & Ht & Hout).
    + rewrite <- Hlen. vm_compute in Hk. injection Hk as <-. cbn. lia.
    + exists claims, contested, t.
      split; [exact Hc |]. split; [exact Hk |]. split; [exact Ht | exact Hout].
Defined.

(** X7. [claim] raises [IndexError] exactly on an empty schedule, and
    otherwise returns a template; on an empty schedule no number of levels
    lets the chain of claims return. *)
Theorem claim_needs_schedule (self : CancellableSubscription.Fields Contract)
    (w : World) :
  (template_of (claim self) w = Raise IndexError
   <-> CancellableSubscription.schedule self = [])
  /\ ((exists t, template_of (claim self) w = Ok t)
      <-> CancellableSubscription.schedule self <> [])
  /\ (CancellableSubscription.schedule self = [] ->
      forall levels,
        templates_of (resolve_claims (S levels) self) w = Raise IndexError).
Proof.
  destruct (CancellableSubscription.schedule self) as [|[d a] rest] eqn:Hs.
  - assert (Hraise : template_of (claim self) w = Raise IndexError).
    { unfold template_of. now rewrite claim_empty. }
    split; [| split].
    + split; [reflexivity | intros _; exact Hraise].
    + rewrite Hraise. split; [intros [t Ht]; discriminate | congruence].
    + intros _ levels. unfold templates_of. cbn [resolve_claims].
      erewrite bind_Raise by (now apply claim_empty). reflexivity.
  - assert (Hok : template_of (claim self) w
                  = Ok (claim_template self (CancellableSubscription.amount self)
                          d a rest)).
    { eapply template_of_last. now apply claim_run_template. }
    split; [| split].
    + rewrite Hok. split; discriminate.
    + split; [discriminate | intros _; eexists; exact Hok].
    + discriminate.
Qed.

(** ** What a vault moves, step by step and at once *)

Section VaultFunding.
Variable cold_storage : list Amount -> Amount -> Contract.
Variable hot_storage : Contract.
Variable amount_step : Amount.
Variables timeout mature : TimeSpec.

Lemma output_total_step_template h n :
  output_total
    (step_template cold_storage hot_storage amount_step timeout mature h n)
  = if n >? 1 then n * amount_step else amount_step.
Proof.
  unfold output_total, step_template, undo_send_output. cbn [outputs].
  destruct (n >? 1); cbn; lia.
Qed.

Lemma undoable_step_template h n :
  undoable
    (step_template cold_storage hot_storage amount_step timeout mature h n)
  = amount_step.
Proof.
  unfold undoable, step_template, undo_send_output. cbn [outputs].
  destruct (n >? 1); cbn; lia.
Qed.

Lemma total_undoable_step_templates k :
  forall h,
    total_undoable
      (step_templates cold_storage hot_storage amount_step timeout mature h k)
    = Z.of_nat k * amount_step.
Proof.
  induction k as [|k IH]; intros h; [reflexivity |].
  cbn [step_templates]. unfold total_undoable in *. cbn [foldr].
  rewrite IH, undoable_step_template. lia.
Qed.
End VaultFunding.

(** X8. Withdrawing a vault of [N >= 1] steps through all its levels sends
    through [UndoSend] contracts, in total, exactly the [N * amount_step]
    that [to_cold] moves at once; and the template of level [i] spends
    exactly [(N - i) * amount_step], the amount the level before paid into
    its sub-vault. *)
Theorem vault_chain_funding (cold_storage : list Amount -> Amount -> Contract)
    (hot_storage : Contract) (amount_step : Amount) (timeout mature : TimeSpec)
    (N : Z) (levels : nat) (w w' : World) :
  1 <= N ->
  (Z.to_nat N <= levels)%nat ->
  let vault := vault cold_storage hot_storage amount_step timeout mature in
  exists ts cold,
    templates_of (resolve_steps levels (vault N)) w = Ok ts
    /\ template_of (to_cold (vault N)) w' = Ok cold
    /\ total_undoable ts = N * amount_step
    /\ output_total cold = total_undoable ts
    /\ forall (i : nat) t,
         ts !! i = Some t -> output_total t = (N - Z.of_nat i) * amount_step.
Proof.
  intros HN Hlevels v.
  destruct (Z.to_nat N) as [|k] eqn:Hk; [lia |].
  assert (HNk : N = Z.of_nat (S k)) by lia.
  destruct levels as [|levels]; [lia |].
  exists (step_templates cold_storage hot_storage amount_step timeout mature
            (calls w) (S k)).
  eexists.
  split; [unfold v; rewrite HNk; apply resolve_steps_templates; lia |].
  split; [eapply template_of_last, to_cold_run |].
  rewrite total_undoable_step_templates.
  split; [now rewrite HNk |].
  split; [unfold output_total, v; cbn; lia |].
  intros i t Ht.
  assert (Hi : (i < S k)%nat).
  { rewrite <- (length_step_templates cold_storage hot_storage amount_step
                  timeout mature (calls w) (S k)).
    eapply lookup_lt_Some. exact Ht. }
  rewrite step_templates_lookup in Ht by exact Hi. injection Ht as <-.
  rewrite output_total_step_template.
  destruct (Z.of_nat (S k) - Z.of_nat i >? 1) eqn:Hgt.
  - lia.
  - rewrite Z.gtb_ltb in Hgt. apply Z.ltb_ge in Hgt.
    replace (N - Z.of_nat i) with 1 by lia. lia.
Qed.

(** A vault of three steps of 100 sends 300 through [UndoSend]. *)
Lemma vault_chain_funding_witness :
  exists ts,
    templates_of (resolve_steps 3 three_steps) empty_world = Ok ts
    /\ total_undoable ts = 300.
Proof.
  destruct (vault_chain_funding one_cold (PayToSegwitAddress "hot") 100
              (RelativeTimeSpec 6) (RelativeTimeSpec 12) 3 3
              empty_world empty_world)
    as (ts & cold & Hrun & _ & Htotal & _).
  - lia.
  - vm_compute. lia.
  - exists ts. split; [exact Hrun | exact Htotal].
Defined.

(** X9. [step] does not look at [n_steps] beyond comparing it with 1: for
    [n_steps <= 1], zero and negative values included, its template holds
    the single output that pays [amount_step] into the [UndoSend] guarding
    what [cold_storage] returned, and no sub-vault, while [to_cold] still
    moves [n_steps * amount_step].  So the two paths of a vault spend the
    same amount exactly when [n_steps >= 1] or [amount_step = 0]. *)
Theorem vault_paths_agree (self : SmarterVault.Fields Contract) (w w' : World) :
  exists stepped cold,
    template_of (step self) w = Ok stepped
    /\ template_of (to_cold self) w' = Ok cold
    /\ (SmarterVault.n_steps self <= 1 ->
        outputs stepped
        = [ (SmarterVault.amount_step self,
             UndoSend
               {| UndoSend.from_contract :=
                    SmarterVault.cold_storage self (calls w)
                      (SmarterVault.amount_step self);
                  UndoSend.to_key := SmarterVault.hot_storage self;
                  UndoSend.timeout := SmarterVault.mature self;
                  UndoSend.amount := SmarterVault.amount_step self |}) ]
        /\ nested_vault stepped = None
        /\ output_total stepped = SmarterVault.amount_step self)
    /\ outputs cold
       = [ (SmarterVault.n_steps self * SmarterVault.amount_step self,
            SmarterVault.cold_storage self (calls w')
              (SmarterVault.n_steps self * SmarterVault.amount_step self)) ]
    /\ output_total cold
       = SmarterVault.n_steps self * SmarterVault.amount_step self
    /\ (output_total stepped = output_total cold
        <-> 1 <= SmarterVault.n_steps self \/ SmarterVault.amount_step self = 0).
Proof.
  eexists. eexists.
  split; [eapply template_of_last, step_run |].
  split; [eapply template_of_last, to_cold_run |].
  unfold output_total, nested_vault. cbn [outputs].
  destruct (SmarterVault.n_steps self >? 1) eqn:Hgt;
    rewrite Z.gtb_ltb in Hgt;
    [apply Z.ltb_lt in Hgt | apply Z.ltb_ge in Hgt]; cbn.
  - split; [lia |]. split; [reflexivity |]. split; [lia |].
    split; [lia |]. intros _. lia.
  - split; [intros _; split; [reflexivity | split; [reflexivity | lia]] |].
    split; [reflexivity |]. split; [lia |].
    split.
    + intros Heq.
      destruct (Z.eq_dec (SmarterVault.amount_step self) 0) as [Hz|Hnz];
        [right; exact Hz | left; nia].
    + intros [Hn | Hz]; [| rewrite Hz; lia].
      replace (SmarterVault.n_steps self) with 1 by lia. lia.
Qed.

(** X10. Undoing a step returns it whole: the [UndoSend] that [step] pays
    [amount_step] into guards the contract [cold_storage] returned to
    [step], and its [undo] path builds a template that pays [amount_step]
    back to that contract with no lock.  [to_cold] on a vault of one step
    builds the same template exactly when [cold_storage] answers it with
    the same contract. *)
Theorem step_then_undo (cold_storage : list Amount -> Amount -> Contract)
    (hot_storage : Contract) (amount_step : Amount) (timeout mature : TimeSpec)
    (n : Z) (w w' w'' : World) :
  let vault := vault cold_storage hot_storage amount_step timeout mature in
  exists stepped send,
    template_of (step (vault n)) w = Ok stepped
    /\ outputs stepped !! 0%nat = Some (amount_step, UndoSend send)
    /\ UndoSend.from_contract send = cold_storage (calls w) amount_step
    /\ template_of (undo send) w'
       = Ok {| outputs := [ (amount_step, cold_storage (calls w) amount_step) ];
               sequence := None;
               lock_time := None |}
    /\ (template_of (to_cold (vault 1)) w'' = template_of (undo send) w'
        <-> cold_storage (calls w'') amount_step
            = cold_storage (calls w) amount_step).
Proof.
  intros v. eexists. eexists.
  split; [eapply template_of_last, step_run |].
  split; [reflexivity |].
  split; [reflexivity |].
  split; [eapply template_of_last; rewrite undo_run; reflexivity |].
  rewrite (template_of_last _ _ _ _ (to_cold_run _ _)).
  rewrite (template_of_last _ _ _ _ (undo_run _ _)).
  unfold v, vault.
  cbn [SmarterVault.n_steps SmarterVault.amount_step SmarterVault.cold_storage
       UndoSend.amount UndoSend.from_contract].
  rewrite Z.mul_1_l. split.
  - intros Heq. injection Heq as Heq. exact Heq.
  - intros Heq. now rewrite Heq.
Qed.

(** ** More on [auto_pay] *)

Lemma comprehension_first_Raise {A B} (f : A -> result B) (e : Error)
    (before : list A) (x : A) (after : list A) :
  Forall (fun y => exists r, f y = Ok r) before ->
  f x = Raise e ->
  comprehension f (before ++ x :: after) = Raise e.
Proof.
  intros Hbefore Hx. induction Hbefore as [|y before [r Hy] _ IH].
  - cbn. now rewrite Hx.
  - cbn [app comprehension]. now rewrite Hy, IH.
Qed.

(** X11. [auto_pay] called with [times <= 0] never calls [at_height]: it
    returns, whatever [at_height] would do, a subscription with an empty
    schedule bound with the amount [per_time * times].  That subscription
    cannot be claimed ([claim] raises [IndexError]); cancelling it pays
    [per_time * times] into a contest whose [counterclaim] yields no
    template. *)
Theorem auto_pay_without_payments (at_height : Z -> result TimeSpec)
    (kwargs : auto_pay.auto_fields) (w : World) :
  auto_pay.times kwargs <= 0 ->
  exists sub,
    auto_pay at_height kwargs = Ok sub
    /\ CancellableSubscription.schedule sub = []
    /\ CancellableSubscription.amount sub
       = auto_pay.per_time kwargs * auto_pay.times kwargs
    /\ template_of (claim sub) w = Raise IndexError
    /\ template_of (cancel sub) w
       = Ok {| outputs :=
                 [ (auto_pay.per_time kwargs * auto_pay.times kwargs,
                    CancelContest (contest_of sub)) ];
               sequence := None;
               lock_time := None |}
    /\ templates_of (counterclaim (contest_of sub)) w = Ok [].
Proof.
  intros Htimes. eexists. split.
  { unfold auto_pay, range. rewrite seqZ_nil by exact Htimes. reflexivity. }
  cbn [CancellableSubscription.schedule CancellableSubscription.amount].
  split; [reflexivity |]. split; [reflexivity |].
  split; [unfold template_of; now rewrite claim_empty |].
  split; [eapply template_of_last; rewrite cancel_run; reflexivity |].
  rewrite (counterclaim_templates (contest_of _)). reflexivity.
Qed.

(** No payment asked for, and an [at_height] that would raise. *)
Lemma auto_pay_without_payments_witness :
  exists sub,
    auto_pay (fun _ => Raise ValueError) no_payments = Ok sub
    /\ CancellableSubscription.schedule sub = []
    /\ CancellableSubscription.amount sub = 0.
Proof.
  destruct (auto_pay_without_payments (fun _ => Raise ValueError) no_payments
              empty_world)
    as (sub & Hrun & Hsched & Hamount & _).
  - cbn. lia.
  - exists sub. split; [exact Hrun |]. split; [exact Hsched | exact Hamount].
Defined.

(** X12. [auto_pay] builds nothing when a height is refused: if
    [at_height] raises for the payment of index [t0] after returning for
    the payments before it, [auto_pay] raises the same exception. *)
Theorem auto_pay_propagates (at_height : Z -> result TimeSpec)
    (kwargs : auto_pay.auto_fields) (t0 : Z) (e : Error) :
  0 <= t0 < auto_pay.times kwargs ->
  (forall t, 0 <= t < t0 ->
     exists h, at_height ((t + 1) * auto_pay.period kwargs) = Ok h) ->
  at_height ((t0 + 1) * auto_pay.period kwargs) = Raise e ->
  auto_pay at_height kwargs = Raise e.
Proof.
  intros Ht0 Hbefore Hraise. unfold auto_pay, range.
  replace (auto_pay.times kwargs) with (t0 + (auto_pay.times kwargs - t0)) at 1 by lia.
  rewrite seqZ_app by lia.
  rewrite (seqZ_cons (0 + t0)) by lia.
  erewrite comprehension_first_Raise; [reflexivity | | ].
  - apply Forall_forall. intros t Ht. apply elem_of_seqZ in Ht.
    destruct (Hbefore t ltac:(lia)) as [h Hh]. rewrite Hh. eauto.
  - rewrite Z.add_0_l, Hraise. reflexivity.
Qed.

(** Heights up to 300 only: the third payment of [quarterly] is refused. *)
Lemma auto_pay_propagates_witness :
  auto_pay
    (fun d => if d <=? 300 then Ok (AbsoluteTimeSpec d) else Raise ValueError)
    quarterly
  = Raise ValueError.
Proof.
  apply (auto_pay_propagates _ quarterly 2 ValueError).
  - cbn. lia.
  - intros t Ht. exists (AbsoluteTimeSpec ((t + 1) * 144)).
    cbn [auto_pay.period quarterly].
    replace ((t + 1) * 144 <=? 300) with true; [reflexivity |].
    symmetry. apply Z.leb_le. lia.
  - reflexivity.
Defined.

(** X13. A subscription built by [auto_pay] with [times = n >= 1] is claimed
    in exactly [n] steps.  The first output of claim [i] pays [per_time] to
    the recipient, the template carries the lock of the height of payment
    [i] (as sequence or as lock time), and it spends
    [per_time * (n - i)], all that its subscription is bound with.  When
    the recipient is a segwit address, the claims together pay that address
    the whole bound amount, so nothing is left over. *)
Theorem auto_pay_claims (at_height : Z -> result TimeSpec)
    (kwargs : auto_pay.auto_fields) (height : Z -> TimeSpec)
    (levels : nat) (w : World) :
  1 <= auto_pay.times kwargs ->
  (forall t, 0 <= t < auto_pay.times kwargs ->
     at_height ((t + 1) * auto_pay.period kwargs) = Ok (height t)) ->
  (Z.to_nat (auto_pay.times kwargs) <= levels)%nat ->
  exists sub ts,
    auto_pay at_height kwargs = Ok sub
    /\ templates_of (resolve_claims levels sub) w = Ok ts
    /\ length ts = Z.to_nat (auto_pay.times kwargs)
    /\ (forall addr,
          auto_pay.recipient kwargs = PayToSegwitAddress addr ->
          total_received addr ts = CancellableSubscription.amount sub
          /\ forall (i : nat) t,
               ts !! i = Some t -> received addr t = auto_pay.per_time kwargs)
    /\ forall (i : nat) t,
         ts !! i = Some t ->
         outputs t !! 0%nat
         = Some (auto_pay.per_time kwargs, auto_pay.recipient kwargs)
         /\ sequence t = sequence_of (height (Z.of_nat i))
         /\ lock_time t = locktime_of (height (Z.of_nat i))
         /\ output_total t
            = auto_pay.per_time kwargs * (auto_pay.times kwargs - Z.of_nat i).
Proof.
  intros Hn Hheight Hlevels.
  set (n := auto_pay.times kwargs) in *.
  set (v := auto_pay.per_time kwargs) in *.
  set (entries := (fun t => (height t, v)) <$> seqZ 0 n).
  assert (Hcomp :
    comprehension
      (fun t =>
         match at_height ((t + 1) * auto_pay.period kwargs) with
         | Ok h => Ok (h, v)
         | Raise e => Raise e
         end)
      (range n)
    = Ok entries).
  { apply comprehension_Ok. apply Forall_forall. intros t Ht.
    apply elem_of_seqZ in Ht. now rewrite Hheight by lia. }
  assert (Hlen : length entries = Z.to_nat n).
  { unfold entries. now rewrite length_fmap, length_seqZ. }
  assert (Hentry : forall i : nat, (i < Z.to_nat n)%nat ->
            entries !! i = Some (height (Z.of_nat i), v)).
  { intros i Hi. unfold entries. rewrite list_lookup_fmap.
    rewrite lookup_seqZ_lt by lia. reflexivity. }
  assert (Htake : forall i : nat, (i <= Z.to_nat n)%nat ->
            schedule_sum (take i entries) = v * Z.of_nat i).
  { intros i Hi. unfold entries. rewrite <- fmap_take.
    rewrite schedule_sum_constant, length_take, length_seqZ. f_equal. lia. }
  eexists. eexists. split.
  { unfold auto_pay. fold n. fold v. rewrite Hcomp. reflexivity. }
  match goal with |- templates_of (resolve_claims _ ?s) _ = _ /\ _ => set (sub := s) end.
  assert (Hsched : CancellableSubscription.schedule sub = entries) by reflexivity.
  assert (Hne : CancellableSubscription.schedule sub <> []).
  { rewrite Hsched. intros Hnil. apply (f_equal length) in Hnil.
    rewrite Hlen in Hnil. cbn in Hnil. lia. }
  split.
  { apply resolve_claims_templates; [exact Hne | rewrite Hsched, Hlen; exact Hlevels]. }
  cbn [CancellableSubscription.schedule CancellableSubscription.amount].
  fold sub.
  split; [now rewrite length_claim_templates |].
  assert (Hlookup : forall (i : nat) t,
            claim_templates sub (v * n) entries !! i = Some t ->
            (i < Z.to_nat n)%nat
            /\ t = claim_template sub (v * n - v * Z.of_nat i)
                     (height (Z.of_nat i)) v (drop (S i) entries)).
  { intros i t Ht.
    assert (Hi : (i < Z.to_nat n)%nat).
    { rewrite <- Hlen, <- (length_claim_templates sub entries (v * n)).
      eapply lookup_lt_Some. exact Ht. }
    rewrite (claim_templates_lookup _ _ _ _ _ _ (Hentry i Hi)) in Ht.
    rewrite Htake in Ht by lia. injection Ht as <-. split; [exact Hi | reflexivity]. }
  split.
  { intros addr Hrecipient.
    assert (Hsub : CancellableSubscription.recipient sub = PayToSegwitAddress addr)
      by exact Hrecipient.
    split.
    - rewrite <- (take_ge (claim_templates sub (v * n) entries) (length entries))
        by (rewrite length_claim_templates; lia).
      rewrite (total_received_claim_templates _ _ _ Hsub), Htake by lia.
      change (CancellableSubscription.amount sub) with (v * n).
      rewrite Hlen. f_equal. lia.
    - intros i t Ht. destruct (Hlookup i t Ht) as [_ ->].
      apply received_claim_template. exact Hsub. }
  intros i t Ht. destruct (Hlookup i t Ht) as [Hi ->].
  split; [reflexivity |]. split; [reflexivity |]. split; [reflexivity |].
  rewrite output_total_claim_template.
  assert (Hdrop : length (drop (S i) entries) = (Z.to_nat n - S i)%nat)
    by (rewrite length_drop, Hlen; reflexivity).
  destruct (drop (S i) entries) as [|entry rest].
  - cbn in Hdrop. replace n with (Z.of_nat i + 1) by lia. lia.
  - lia.
Qed.

(** The three claims of the subscription [auto_pay] builds at
    [quarterly] pay the address [recipient] 30 in all. *)
Lemma auto_pay_claims_witness :
  exists sub ts,
    auto_pay (fun d => Ok (AbsoluteTimeSpec d)) quarterly = Ok sub
    /\ templates_of (resolve_claims 3 sub) empty_world = Ok ts
    /\ length ts = 3%nat
    /\ total_received "recipient" ts = CancellableSubscription.amount sub.
Proof.
  destruct (auto_pay_claims (fun d => Ok (AbsoluteTimeSpec d)) quarterly
              (fun t => AbsoluteTimeSpec ((t + 1) * 144)) 3 empty_world)
    as (sub & ts & Hrun & Hts & Hlen & Hpaid & _).
  - cbn. lia.
  - intros t _. reflexivity.
  - vm_compute. lia.
  - exists sub, ts.
    split; [exact Hrun |]. split; [exact Hts |]. split; [exact Hlen |].
    exact (proj1 (Hpaid "recipient" eq_refl)).
Defined.

(** ** What the factories leave alone *)

Lemma builds_allocates_one (m : M ref) (t : World -> TransactionTemplate)
    (h : World -> list Amount) :
  (forall w, m w = Ok (length (templates w),
                       mkWorld (templates w ++ [t w]) (h w))) ->
  allocates_one m.
Proof.
  intros Hm w tx w' Hrun. rewrite Hm in Hrun. injection Hrun as <- <-.
  cbn [templates].
  split; [reflexivity |]. split; [rewrite length_app; cbn; lia |].
  intros r t0 Hr. now apply lookup_app_l_Some.
Qed.

Lemma raises_allocates_one (m : M ref) (e : Error) :
  (forall w, m w = Raise e) -> allocates_one m.
Proof. intros Hm w tx w' Hrun. rewrite Hm in Hrun. discriminate. Qed.

(** X14. No factory touches a template it did not create: whenever one of
    the paths returns, the store holds every earlier template unchanged and
    exactly one more, the one returned; the generator [counterclaim] leaves
    every earlier template unchanged and returns as many new, distinct
    templates as the schedule has entries. *)
Theorem factories_allocate (vault : SmarterVault.Fields Contract)
    (sub : CancellableSubscription.Fields Contract)
    (contest : CancelContest.Fields Contract)
    (send : UndoSend.Fields Contract) (send2 : UndoSend2.Fields) :
  allocates_one (undo send)
  /\ allocates_one (UndoSend2.complete send2)
  /\ allocates_one (UndoSend2.undo send2)
  /\ allocates_one (step vault)
  /\ allocates_one (to_cold vault)
  /\ allocates_one (cancel sub)
  /\ allocates_one (claim sub)
  /\ allocates_one (finish_cancel contest)
  /\ (forall w,
        exists w',
          counterclaim contest w
          = Ok (seq (length (templates w))
                  (length (CancelContest.schedule contest)), w')
          /\ length (templates w')
             = (length (templates w)
                + length (CancelContest.schedule contest))%nat
          /\ forall r t,
               templates w !! r = Some t -> templates w' !! r = Some t).
Proof.
  refine (conj _ (conj _ (conj _ (conj _ (conj _ (conj _ (conj _ (conj _ _)))))))).
  - eapply builds_allocates_one. intros w. apply undo_run.
  - eapply builds_allocates_one. intros w. apply undo_send2_complete_run.
  - eapply builds_allocates_one. intros w. apply undo_send2_undo_run.
  - eapply builds_allocates_one. intros w. apply step_run.
  - eapply builds_allocates_one. intros w. apply to_cold_run.
  - eapply builds_allocates_one. intros w. apply cancel_run.
  - destruct (CancellableSubscription.schedule sub) as [|[delay amount] rest] eqn:Hs.
    + apply (raises_allocates_one _ IndexError). intros w. apply claim_empty. exact Hs.
    + eapply builds_allocates_one. intros w. apply (claim_run _ _ _ _ _ Hs).
  - eapply builds_allocates_one. intros w. apply finish_cancel_run.
  - intros w. eexists. split.
    + apply counterclaim_run.
    + cbn [templates].
      split; [now rewrite length_app, length_yielded_all |].
      intros r t Hr. now apply lookup_app_l_Some.
Qed.

(** ** More on the payment-list boundary *)

Lemma comprehension_Ok_inv {A B} (f : A -> result B) (l : list A) :
  forall rs, comprehension f l = Ok rs -> Forall2 (fun x r => f x = Ok r) l rs.
Proof.
  induction l as [|x l IH]; intros rs Hrun; cbn [comprehension] in Hrun.
  - injection Hrun as <-. constructor.
  - destruct (f x) as [r|e] eqn:Hx; [| discriminate].
    destruct (comprehension f l) as [rs'|e]; [| discriminate].
    injection Hrun as <-. constructor; [exact Hx | now apply IH].
Qed.

(** X15. [convert] returns only for what it promises to accept: whenever it
    returns a list of pairs, its argument is an array, every item of it
    conforms to the address schema, and the pairs are the conversions of
    the items, one for one and in order. *)
Theorem convert_returns_only_valid (Context BindableContract : Type)
    (address_schema : JSON -> bool)
    (address_convert : JSON -> Context -> result (Amount * BindableContract))
    (arg : JSON) (ctx : Context) (pairs : list (Amount * BindableContract)) :
  payments.convert Context BindableContract address_schema address_convert
    arg ctx = Ok pairs ->
  exists items,
    arg = JArray items
    /\ Forall (fun p => address_schema p = true) items
    /\ Forall2 (fun p r => address_convert p ctx = Ok r) items pairs
    /\ length pairs = length items.
Proof.
  unfold payments.convert, payments.validate. intros Hrun.
  destruct arg as [| | | |items|]; try discriminate.
  destruct (forallb address_schema items) eqn:Hall; [| discriminate].
  exists items. split; [reflexivity |].
  split; [now apply forallb_Forall_true |].
  pose proof (comprehension_Ok_inv _ _ _ Hrun) as Hconv.
  split; [exact Hconv |]. symmetry. eapply Forall2_length. exact Hconv.
Qed.

(** A single payment converted by [read_payment]. *)
Lemma convert_returns_only_valid_witness :
  exists items,
    JArray [ JObject [("address", JString "bc1q"); ("amount", JNumber 5)] ]
    = JArray items
    /\ Forall (fun p => is_object p = true) items.
Proof.
  destruct (convert_returns_only_valid unit string is_object read_payment
              (JArray [ JObject [("address", JString "bc1q"); ("amount", JNumber 5)] ])
              tt [ (5, "bc1q") ])
    as (items & Harg & Hvalid & _).
  - reflexivity.
  - exists items. split; [exact Harg | exact Hvalid].
Defined.

(** X16. On an array of conforming items, [convert] stops at the first item
    whose conversion raises and raises the same exception: no partial list
    is returned. *)
Theorem convert_first_error (Context BindableContract : Type)
    (address_schema : JSON -> bool)
    (address_convert : JSON -> Context -> result (Amount * BindableContract))
    (ctx : Context) (before : list JSON) (p : JSON) (after : list JSON)
    (e : Error) :
  Forall (fun q => address_schema q = true) (before ++ p :: after) ->
  Forall (fun q => exists r, address_convert q ctx = Ok r) before ->
  address_convert p ctx = Raise e ->
  payments.convert Context BindableContract address_schema address_convert
    (JArray (before ++ p :: after)) ctx = Raise e.
Proof.
  intros Hvalid Hbefore Hp. unfold payments.convert, payments.validate.
  apply forallb_Forall_true in Hvalid. rewrite Hvalid.
  now apply comprehension_first_Raise.
Qed.

(** A well-formed payment followed by an object [read_payment] refuses. *)
Lemma convert_first_error_witness :
  payments.convert unit string is_object read_payment
    (JArray [ JObject [("address", JString "bc1q"); ("amount", JNumber 5)];
              JObject [("address", JString "bc1p")] ])
    tt
  = Raise ValueError.
Proof.
  apply (convert_first_error unit string is_object read_payment tt
           [ JObject [("address", JString "bc1q"); ("amount", JNumber 5)] ]
           (JObject [("address", JString "bc1p")]) [] ValueError).
  - repeat constructor.
  - repeat constructor. eexists. reflexivity.
  - reflexivity.
Defined.
